(** * Fathom's Readability example: the quality metric and the coefficient tuner

    A shallow embedding of [examples/readability.js]: the text normalisation
    ([trimLines], [collapseNewlines]), the [DiffStats] accumulator, the
    [deviationScore] objective, the pipeline factory [tunedContentFnodes]
    with its default parameters, and the tuner's [randomTransition].

    JavaScript numbers are IEEE 754 binary64 values; they are modelled by the
    [spec_float] type of the standard library at precision 53 and maximal
    exponent 1024, with round-to-nearest-even operations.  Strings are
    sequences of UTF-16 code units. *)

From Stdlib Require Import ZArith NArith List Bool Lia.
From Stdlib Require Import Floats.SpecFloat.
From Stdlib Require String Ascii.
From Equations Require Import Equations.
From stdpp Require Import base option list gmap.
Import ListNotations.
Import String.StringSyntax.

Local Open Scope N_scope.

(* ===================================================================== *)
(** * Strings *)
(* ===================================================================== *)

(** A string is the list of its UTF-16 code units. *)
Definition jsstring := list N.

(** The line feed, ['\n']. *)
Definition LF : N := 10.

(** The code units removed by [String.prototype.trim]: ECMAScript's
    [WhiteSpace] (tab, vertical tab, form feed, space, no-break space, the
    byte order mark and the space separators) and [LineTerminator] (line
    feed, carriage return, line and paragraph separators). *)
Definition isWhiteSpace (c : N) : bool :=
  (c =? 9) || (c =? 10) || (c =? 11) || (c =? 12) || (c =? 13) || (c =? 32)
  || (c =? 160) || (c =? 5760) || ((8192 <=? c) && (c <=? 8202))
  || (c =? 8232) || (c =? 8233) || (c =? 8239) || (c =? 8287)
  || (c =? 12288) || (c =? 65279).

Fixpoint trimStart (s : jsstring) : jsstring :=
  match s with
  | c :: t => if isWhiteSpace c then trimStart t else s
  | [] => []
  end.

Definition trimEnd (s : jsstring) : jsstring := rev (trimStart (rev s)).

(** [String.prototype.trim]. *)
Definition trim (s : jsstring) : jsstring := trimEnd (trimStart s).

(** [str.split(sep)] for a separator of one code unit.  The result is never
    empty: the empty string splits into one empty piece. *)
Fixpoint split (sep : N) (s : jsstring) : list jsstring :=
  match s with
  | [] => [[]]
  | c :: t =>
      if c =? sep then [] :: split sep t
      else match split sep t with
           | l :: ls => (c :: l) :: ls
           | [] => [[c]]
           end
  end.

(** [pieces.join(sep)]. *)
Fixpoint join (sep : jsstring) (pieces : list jsstring) : jsstring :=
  match pieces with
  | [] => []
  | [l] => l
  | l :: rest => l ++ sep ++ join sep rest
  end.

(** Remove leading and trailing whitespace from each line of a string. *)
Definition trimLines (str : jsstring) : jsstring :=
  let lines := split LF str in
  join [LF] (map trim lines).

(** The greedy [\n+]: the rest of the string after its leading line feeds. *)
Fixpoint skipNewlines (s : jsstring) : jsstring :=
  match s with
  | c :: t => if c =? LF then skipNewlines t else s
  | [] => []
  end.

(** A match of the pattern [\n\n+] at the head of the string: the rest of the
    string after the longest match, or [None] when there is no match here. *)
Definition matchNewlines (s : jsstring) : option jsstring :=
  match s with
  | a :: b :: t => if (a =? LF) && (b =? LF) then Some (skipNewlines t) else None
  | _ => None
  end.

(** Keep the equation of a scrutinee at hand when matching on it. *)
Definition inspect {A : Type} (a : A) : {b : A | a = b} := exist _ a eq_refl.

(** Replace runs of line breaks with single ones:
    [str.replace(/\n\n+/g, '\n')].  The global replacement scans from the
    left; at a match it emits the replacement and goes on after the match,
    elsewhere it copies one code unit. *)
Equations? collapseNewlines (str : jsstring) : jsstring by wf (length str) lt :=
  collapseNewlines [] := [];
  collapseNewlines (c :: t) with inspect (matchNewlines (c :: t)) => {
    | exist _ (Some rest) _ := LF :: collapseNewlines rest;
    | exist _ None _ := c :: collapseNewlines t }.
Proof.
  - destruct t as [|b u]; simpl in *; [discriminate|].
    destruct ((c =? LF) && (b =? LF)); [|discriminate].
    match goal with H : Some _ = Some _ |- _ => inversion H end.
    assert (Hskip : forall s, (length (skipNewlines s) <= length s)%nat).
    { induction s as [|d s IH]; simpl; [lia|].
      destruct (d =? LF); simpl; lia. }
    pose proof (Hskip u). simpl. lia.
  - simpl. lia.
Qed.

(** Modelled from the spec: the edit distance is the npm package [leven],
    which is not part of this repository; the spec gives its contract, "a
    function (stringA, stringB) -> non-negative integer counting minimum
    single-character insert/delete/substitute operations (standard
    Levenshtein)".  This is the textbook recurrence. *)
Fixpoint levenshtein (a b : jsstring) : nat :=
  match a with
  | [] => length b
  | x :: a' =>
      (fix inner (b : jsstring) : nat :=
         match b with
         | [] => length a
         | y :: b' =>
             Nat.min (S (levenshtein a' b))
               (Nat.min (S (inner b'))
                  (levenshtein a' b' + (if x =? y then 0 else 1)))
         end) b
  end.

(** String literals, for the examples. *)
Definition str (s : String.string) : jsstring :=
  map (fun a => N.of_nat (Ascii.nat_of_ascii a)) (String.list_ascii_of_string s).

(* ===================================================================== *)
(** * Numbers and values *)
(* ===================================================================== *)

(** A number is a binary64 value. *)
Definition number := spec_float.

Definition prec : Z := 53.
Definition emax : Z := 1024.

Definition jsadd : number -> number -> number := SFadd prec emax.
Definition jssub : number -> number -> number := SFsub prec emax.
Definition jsmul : number -> number -> number := SFmul prec emax.
Definition jsdiv : number -> number -> number := SFdiv prec emax.
Definition jslt : number -> number -> bool := SFltb.
Definition jsle : number -> number -> bool := SFleb.

Definition NaN : number := S754_nan.
Definition Infinity : number := S754_infinity false.
Definition zero : number := S754_zero false.

(** The number [m * 2^e], rounded to nearest. *)
Definition dyadic (m e : Z) : number := binary_normalize prec emax m e false.

(** The number of an integer. *)
Definition ofZ (z : Z) : number := dyadic z 0.
Definition ofN (n : N) : number := ofZ (Z.of_N n).
Definition ofNat (n : nat) : number := ofZ (Z.of_nat n).

(** [Math.floor]. *)
Definition Math_floor (x : number) : number :=
  match x with
  | S754_finite s m e =>
      binary_normalize prec emax (Z.shiftl (cond_Zopp s (Zpos m)) e) 0 s
  | _ => x
  end.

(** The primitive values that occur as coefficients. *)
Inductive value :=
  | VUndefined
  | VNull
  | VBool (b : bool)
  | VNumber (n : number).

(** [ToNumber]. *)
Definition ToNumber (v : value) : number :=
  match v with
  | VUndefined => NaN
  | VNull => zero
  | VBool true => ofZ 1
  | VBool false => zero
  | VNumber n => n
  end.

(** [ToBoolean] of a number: zeros and NaN are falsy. *)
Definition truthy (x : number) : bool :=
  match x with
  | S754_zero _ | S754_nan => false
  | _ => true
  end.

(** An argument is a primitive value or an array of such. *)
Inductive argument :=
  | Prim (v : value)
  | Array (elems : list value).

(** How a call ends. *)
Inductive error := TypeError.

Inductive completion (A : Type) :=
  | Normal (a : A)
  | Throw (e : error).
Arguments Normal {A} a.
Arguments Throw {A} e.

#[global] Instance completion_ret : MRet completion := fun A a => Normal a.

#[global] Instance completion_bind : MBind completion :=
  fun A B k c =>
    match c with
    | Normal a => k a
    | Throw e => Throw e
    end.

(** A formal parameter with a default value: the default is taken when the
    argument is missing or [undefined]. *)
Definition parameter (args : list value) (i : nat) (dflt : value) : value :=
  match args !! i with
  | None | Some VUndefined => dflt
  | Some v => v
  end.

(** The spread [...a] of an argument into an argument list: arrays are
    iterable, the primitive values here are not. *)
Definition spread (a : argument) : completion (list value) :=
  match a with
  | Array elems => Normal elems
  | Prim _ => Throw TypeError
  end.

(* ===================================================================== *)
(** * The rule language handed to the engine *)
(* ===================================================================== *)

(** What [scoreByLength] stores for the link-density rule. *)
Record note := { inlineLength : number }.

(** The object a [props] callback returns. *)
Record properties := { score : number; note_ : note }.

(** The option bag of [topTotalingCluster]. *)
Record clusterOptions := {
  splittingDistance : number;
  differentDepthCost : value;
  differentTagCost : value;
  sameTagCost : value;
  strideCost : value
}.

(** The calls of [../index] that build the rules.  The engine that runs
    them is not part of this file: the rules are data for it. *)
Module Rules.
Section Sides.
Variable fnode : Type.

Inductive scoreArg :=
  | Callback (f : fnode -> number)
  | Constant (v : value).

Inductive side :=
  | dom (selector : String.string)
  | type (name : String.string)
  | props (callback : fnode -> properties)
  | scoreOf (s : scoreArg)
  | out (key : String.string)
  | dotType (s : side) (name : String.string)
  | dotTopTotalingCluster (s : side) (options : clusterOptions)
  | dotAllThrough (s : side) (callback : list fnode -> list fnode).

Inductive rule := Rule (lhs rhs : side).
End Sides.
Arguments Callback {fnode} f.
Arguments Constant {fnode} v.
Arguments dom {fnode} selector.
Arguments type {fnode} name.
Arguments props {fnode} callback.
Arguments scoreOf {fnode} s.
Arguments out {fnode} key.
Arguments dotType {fnode} s name.
Arguments dotTopTotalingCluster {fnode} s options.
Arguments dotAllThrough {fnode} s callback.
Arguments Rule {fnode} lhs rhs.
End Rules.

(** The collaborators of this file: the DOM, the helpers of [../utils] and
    the rule engine of [../index].  None of them is in this file; they are
    the interface it is written against. *)
Class Substrate := {
  document : Type;
  element : Type;
  fnode : Type;
  (** [dom.firstChild] *)
  firstChild : document -> element;
  (** [element.textContent] *)
  elementTextContent : element -> jsstring;
  (** [fnode.element] *)
  fnodeElement : fnode -> element;
  (** [fnode.noteFor(type)] *)
  noteFor : fnode -> String.string -> note;
  (** [inlineTextLength(element)] of [../utils] *)
  inlineTextLength : element -> number;
  (** [linkDensity(fnode, inlineLength)] of [../utils] *)
  linkDensity : fnode -> number -> number;
  (** [domSort] of [../utils] *)
  domSort : list fnode -> list fnode;
  (** [ruleset(...rules).against(doc).get(key)] of [../index] *)
  against : list (Rules.rule fnode) -> document -> String.string -> list fnode
}.

(* ===================================================================== *)
(** * The pipeline factory *)
(* ===================================================================== *)

Section Pipeline.
Context `{Substrate}.
Local Open Scope string_scope.

(** The default coefficients. *)
Definition defaultCoefficients : list value :=
  [ VNumber (dyadic 3 (-1));    (* 1.5 *)
    VNumber (dyadic 9 (-1));    (* 4.5 *)
    VNumber (ofZ 2);            (* 2 *)
    VNumber (dyadic 13 (-1));   (* 6.5 *)
    VNumber (ofZ 2);            (* 2 *)
    VNumber (dyadic 1 (-1));    (* 0.5 *)
    VNumber zero ].             (* 0 *)

(** Score a node based on how much text is directly inside it and its
    inline-tag children.  [coeffLength] is the variable of the enclosing
    [tunedContentFnodes] that the closure captures. *)
Definition scoreByLength (coeffLength : value) (fnode : fnode) : properties :=
  let length := jsmul (inlineTextLength (fnodeElement fnode)) (ToNumber coeffLength) in
  {| score := length;
     note_ := {| inlineLength := length |} |}.

(** The callback of the second rule: scale by the inverse of the link
    density. *)
Definition scoreByLinkDensity (coeffLinkDensity : value) (fnode : fnode) : number :=
  jsmul (jssub (ofZ 1)
               (linkDensity fnode (inlineLength (noteFor fnode "paragraphish"))))
        (ToNumber coeffLinkDensity).

(** The rules of [tunedContentFnodes], from its seven bound parameters. *)
Definition rules (coeffLinkDensity coeffParagraphTag coeffLength
                  coeffDifferentDepth coeffDifferentTag coeffSameTag
                  coeffStride : value) : list (Rules.rule fnode) :=
  [ Rules.Rule (Rules.dom "p,div,li,code,blockquote,pre,h1,h2,h3,h4,h5,h6")
               (Rules.dotType (Rules.props (scoreByLength coeffLength)) "paragraphish");
    Rules.Rule (Rules.type "paragraphish")
               (Rules.scoreOf (Rules.Callback (scoreByLinkDensity coeffLinkDensity)));
    Rules.Rule (Rules.dom "p")
               (Rules.dotType (Rules.scoreOf (Rules.Constant coeffParagraphTag)) "paragraphish");
    Rules.Rule (Rules.dotTopTotalingCluster (Rules.type "paragraphish")
                  {| splittingDistance := ofZ 3;
                     differentDepthCost := coeffDifferentDepth;
                     differentTagCost := coeffDifferentTag;
                     sameTagCost := coeffSameTag;
                     strideCost := coeffStride |})
               (Rules.type "content");
    Rules.Rule (Rules.type "content")
               (Rules.dotAllThrough (Rules.out "sortedContent") domSort) ].

(** The main entrypoint: return a [contentFnodes(dom)] function that
    extracts the content from a DOM.  It is called with an argument list;
    each of its seven parameters has a default.  Nothing in its body
    inspects the arguments: it builds the rules and returns the closure. *)
Definition tunedContentFnodes (args : list value)
  : completion (document -> list fnode) :=
  let coeffLinkDensity := parameter args 0 (VNumber (dyadic 3 (-1))) in
  let coeffParagraphTag := parameter args 1 (VNumber (dyadic 9 (-1))) in
  let coeffLength := parameter args 2 (VNumber (ofZ 2)) in
  let coeffDifferentDepth := parameter args 3 (VNumber (dyadic 13 (-1))) in
  let coeffDifferentTag := parameter args 4 (VNumber (ofZ 2)) in
  let coeffSameTag := parameter args 5 (VNumber (dyadic 1 (-1))) in
  let coeffStride := parameter args 6 (VNumber zero) in
  let rules := rules coeffLinkDensity coeffParagraphTag coeffLength
                     coeffDifferentDepth coeffDifferentTag coeffSameTag
                     coeffStride in
  let contentFnodes := fun doc => against rules doc "sortedContent" in
  Normal contentFnodes.

(** Return the concatenated textual content of an entire DOM tree. *)
Definition textContent (dom : document) : jsstring :=
  elementTextContent (firstChild dom).
End Pipeline.

(* ===================================================================== *)
(** * The quality metric *)
(* ===================================================================== *)

(** [str.length], a number. *)
Definition strLength (s : jsstring) : number := ofNat (length s).

(** [leven(a, b)], a number. *)
Definition leven (a b : jsstring) : number := ofNat (levenshtein a b).

(** Maintain state as we compare a series of DOMs, reporting the percent
    difference at the end. *)
Module DiffStats.
Section Methods.
Context `{Substrate}.

Record t := {
  lengthOfExpectedTexts : number;
  lengthOfDiffs : number;
  contentFnodes : document -> list fnode
}.

(** [new DiffStats(contentFnodes)]; the argument may be left out. *)
Definition constructor (contentFnodes : option (document -> list fnode))
  : completion t :=
  contentFnodes ← match contentFnodes with
                  | Some f => Normal f
                  | None => tunedContentFnodes []
                  end;
  Normal {| lengthOfExpectedTexts := zero;
            lengthOfDiffs := zero;
            contentFnodes := contentFnodes |}.

(** Run the algorithm over a DOM, and measure the difference from the
    expected result; sock the results away to produce a total score
    later. *)
Definition compare (this : t) (expectedDom sourceDom : document) : t :=
  let expectedText := collapseNewlines (trimLines (textContent expectedDom)) in
  let gotText :=
    collapseNewlines
      (trimLines
         (join [LF]
            (map (fun fnode => elementTextContent (fnodeElement fnode))
                 (contentFnodes this sourceDom)))) in
  {| lengthOfExpectedTexts := jsadd (lengthOfExpectedTexts this) (strLength expectedText);
     lengthOfDiffs := jsadd (lengthOfDiffs this) (leven expectedText gotText);
     contentFnodes := contentFnodes this |}.

Definition score (this : t) : number :=
  jsmul (jsdiv (lengthOfDiffs this) (lengthOfExpectedTexts this)) (ofZ 100).
End Methods.
End DiffStats.

Section DeviationScore.
Context `{Substrate}.

(** [deviationScore(docPairs, coeffs = [])]. *)
Definition deviationScore (docPairs : list (document * document))
    (coeffs : argument) : completion number :=
  let coeffs := match coeffs with
                | Prim VUndefined => Array []
                | _ => coeffs
                end in
  args ← spread coeffs;
  contentFnodes ← tunedContentFnodes args;
  stats ← DiffStats.constructor (Some contentFnodes);
  let stats :=
    fold_left (fun stats pair => DiffStats.compare stats (fst pair) (snd pair))
              docPairs stats in
  Normal (DiffStats.score stats).
End DeviationScore.

(* ===================================================================== *)
(** * The coefficient tuner *)
(* ===================================================================== *)

(** Arrays live in a store: a solution is a reference to its elements. *)
Definition loc := positive.
Abbreviation store := (gmap loc (list value)).

(** [a.slice()]: a fresh array with the elements of [a]. *)
Definition slice (h : store) (a : loc) : option (store * loc) :=
  elems ← h !! a;
  let l := fresh (dom h) in
  Some (<[l := elems]> h, l).

(** The array index a number denotes as a property key, if it is one: a
    non-negative integer. *)
Definition arrayIndex (k : number) : option nat :=
  match k with
  | S754_zero _ => Some 0%nat
  | S754_finite false m e =>
      if (0 <=? e)%Z then Some (Z.to_nat (Z.shiftl (Zpos m) e))
      else if (Z.shiftl (Z.shiftr (Zpos m) (- e)) (- e) =? Zpos m)%Z
           then Some (Z.to_nat (Z.shiftr (Zpos m) (- e)))
           else None
  | _ => None
  end.

(** [a[k] += d] on the elements of an array.  Reading past the end gives
    [undefined]; writing past the end extends the array; a key that is not
    an index names an ordinary property and leaves the elements alone. *)
Definition addAssign (elems : list value) (k : number) (d : number) : list value :=
  match arrayIndex k with
  | Some i =>
      let old := default VUndefined (elems !! i) in
      let new := VNumber (jsadd (ToNumber old) d) in
      if (i <? length elems)%nat then <[i := new]> elems
      else elems ++ replicate (i - length elems) VUndefined ++ [new]
  | None => elems
  end.

Module ContentFnodesTuner.
(** Nudge a random coefficient in a random direction.  [r1] and [r2] are
    the results of the two calls of [Math.random()], in the order in which
    the assignment evaluates them: the index first, the amount second. *)
Definition randomTransition (r1 r2 : number) (h : store) (solution : loc)
  : option (store * loc) :=
  '(h, ret) ← slice h solution;
  solutionElems ← h !! solution;
  retElems ← h !! ret;
  let k := Math_floor (jsmul r1 (ofNat (length solutionElems))) in
  let d := if truthy (Math_floor (jsmul r2 (ofZ 2)))
           then dyadic (-1) (-1) else dyadic 1 (-1) in
  Some (<[ret := addAssign retElems k d]> h, ret).
End ContentFnodesTuner.

(** What [Math.random()] returns: a number in the range from 0 inclusive up
    to but not including 1. *)
Definition isRandom (r : number) : Prop :=
  valid_binary prec emax r = true /\ jsle zero r = true /\ jslt r (ofZ 1) = true.

(* ===================================================================== *)
(** * Definitions used to state the properties *)
(* ===================================================================== *)

(** The normalisation [compare] applies to both texts. *)
Definition normalize (s : jsstring) : jsstring := collapseNewlines (trimLines s).

(** Delete the blank lines that lie between the first and the last line. *)
Fixpoint dropInnerBlank (rest : list jsstring) : list jsstring :=
  match rest with
  | [] => []
  | [l] => [l]
  | l :: rest' =>
      match l with
      | [] => dropInnerBlank rest'
      | _ :: _ => l :: dropInnerBlank rest'
      end
  end.

Definition squeezeLines (lines : list jsstring) : list jsstring :=
  match lines with
  | [] => []
  | l :: rest => l :: dropInnerBlank rest
  end.

(** The normalisation as the specification words it: trim each line, then
    collapse every run of two or more consecutive blank lines into a single
    blank line. *)
Fixpoint collapseBlankRuns_spec (lines : list jsstring) : list jsstring :=
  match lines with
  | [] => []
  | l :: rest =>
      match l, rest with
      | [], [] :: _ => collapseBlankRuns_spec rest
      | _, _ => l :: collapseBlankRuns_spec rest
      end
  end.

Definition normalize_spec (s : jsstring) : jsstring :=
  let lines := map trim (split LF s) in
  join [LF] (collapseBlankRuns_spec lines).

(** A small substrate to run the code on: a document is the list of its
    text blocks, an element and its fnode are the text they hold, and the
    engine keeps every block. *)
Definition blocks : Substrate := {|
  document := list jsstring;
  element := jsstring;
  fnode := jsstring;
  firstChild := fun doc => join [LF] doc;
  elementTextContent := fun e => e;
  fnodeElement := fun f => f;
  noteFor := fun f _ => {| inlineLength := ofNat (length f) |};
  inlineTextLength := fun e => ofNat (length e);
  linkDensity := fun _ _ => zero;
  domSort := fun fs => fs;
  against := fun _ doc _ => doc
|}.

(** A string that does not begin with whitespace. *)
Definition startsClean (s : jsstring) : Prop :=
  match s with
  | [] => True
  | c :: _ => isWhiteSpace c = false
  end.

(** The leading blank lines that a greedy match swallows: all but a last
    line. *)
Fixpoint dropLeadingBlank (lines : list jsstring) : list jsstring :=
  match lines with
  | [] :: (_ :: _) as rest => dropLeadingBlank rest
  | _ => lines
  end.

(** Numbers that are not negative: [+0], a positive finite number or
    [+Infinity]. *)
Definition NonNeg (x : number) : Prop :=
  match x with
  | S754_zero false | S754_infinity false | S754_finite false _ _ => True
  | _ => False
  end.

(** The numbers above zero whose exponent is in the range of the format. *)
Definition Positive (x : number) : Prop :=
  match x with
  | S754_infinity false => True
  | S754_finite false _ e => (SpecFloat.emin prec emax <= e)%Z
  | _ => False
  end.

(** What a running total can be: [+0] or such a positive number. *)
Definition Total (x : number) : Prop := x = zero \/ Positive x.







Section MetricDefinitions.
Context `{Substrate}.

(** The two texts of one comparison, normalised. *)
Definition expectedText (pair : document * document) : jsstring :=
  normalize (textContent (fst pair)).

Definition gotText (contentFnodes : document -> list fnode)
    (pair : document * document) : jsstring :=
  normalize
    (join [LF]
       (map (fun fnode => elementTextContent (fnodeElement fnode))
            (contentFnodes (snd pair)))).

(** The calls [stats.compare(...pair)] for the pairs of a list, in order. *)
Definition compareAll (stats : DiffStats.t)
    (docPairs : list (document * document)) : DiffStats.t :=
  fold_left (fun stats pair => DiffStats.compare stats (fst pair) (snd pair))
            docPairs stats.

(** The sum of a list of numbers, added one by one from zero. *)
Definition sumOf (xs : list number) : number := fold_left jsadd xs zero.

(** Contract A, for one pair: the edit distance and the length of the
    normalised expected text. *)
Definition editDistance (contentFnodes : document -> list fnode)
    (pair : document * document) : number :=
  leven (expectedText pair) (gotText contentFnodes pair).

Definition expectedLength (pair : document * document) : number :=
  strLength (expectedText pair).



(** [compare] with the normalisation as the specification words it. *)
Definition compare_spec (this : DiffStats.t) (expectedDom sourceDom : document)
  : DiffStats.t :=
  let expectedText := normalize_spec (textContent expectedDom) in
  let gotText :=
    normalize_spec
      (join [LF]
         (map (fun fnode => elementTextContent (fnodeElement fnode))
              (DiffStats.contentFnodes this sourceDom))) in
  {| DiffStats.lengthOfExpectedTexts :=
       jsadd (DiffStats.lengthOfExpectedTexts this) (strLength expectedText);
     DiffStats.lengthOfDiffs :=
       jsadd (DiffStats.lengthOfDiffs this) (leven expectedText gotText);
     DiffStats.contentFnodes := DiffStats.contentFnodes this |}.
End MetricDefinitions.

Section FactoryClaim.
Context `{Substrate}.



End FactoryClaim.

Section ExampleData.
#[local] Existing Instance blocks.
Local Open Scope string_scope.

(** A fresh metric on the small substrate. *)
Definition freshStats : @DiffStats.t blocks :=
  @DiffStats.Build_t blocks zero zero (fun doc : list jsstring => doc).

(** A page whose extraction is its expected text. *)
Definition helloPair : @document blocks * @document blocks :=
  ([str "Hello"], [str " Hello "]).

(** A page whose expected text is a single space and from which nothing
    is extracted: both texts are empty after normalisation. *)
Definition blankPair : @document blocks * @document blocks :=
  ([str " "], []).

(** A page with two blank lines between two letters: [a\n\n\nb]. *)
Definition gappedText : jsstring := [97; 10; 10; 10; 98].

End ExampleData.

(* ===================================================================== *)
(** * The rest of the file: the corpus on disk and runs of the tuner *)
(* ===================================================================== *)

(** Whether a string holds two line breaks side by side, a match of
    [\n\n+]. *)
Fixpoint hasDoubleLF (s : jsstring) : bool :=
  match s with
  | a :: t =>
      match t with
      | b :: _ => (a =? LF) && (b =? LF) || hasDoubleLF t
      | [] => false
      end
  | [] => false
  end.

(** The test data on disk.  [domFromFile folder fileName] is
    [staticDom(readFileSync(join(dirname(__dirname), 'test',
    'readability_test_data', folder, fileName)))], with [None] when reading
    the file throws. *)
Class Fixtures `{Substrate} := {
  domFromFile : String.string -> String.string -> option document
}.

Section Corpus.
Context `{Fixtures}.
Local Open Scope string_scope.

(** The array literal reads the expected document first, the source
    document second. *)
Definition expectedAndSourceDocs (folder : String.string)
  : option (document * document) :=
  expected ← domFromFile folder "expected.html";
  source ← domFromFile folder "source.html";
  Some (expected, source).

(** The folders of the readability test documents; ['002'] is commented
    out in the source. *)
Definition readabilityFolders : list String.string :=
  [ "basic-tags-cleaning"; "001"; "daringfireball-1"; "buzzfeed-1";
    "clean-links"; "ehow-1"; "embedded-videos"; "heise"; "herald-sun-1" ].

(** Return (expected DOM, source DOM) for all the readability test docs. *)
Definition readabilityDocPairs : option (list (document * document)) :=
  mapM expectedAndSourceDocs readabilityFolders.

(** Compare 2 HTML files in a named directory within the readability test
    folder: [this.compare(...expectedAndSourceDocs(folder))]. *)
Definition compareFilesIn (this : DiffStats.t) (folder : String.string)
  : option DiffStats.t :=
  pair ← expectedAndSourceDocs folder;
  Some (DiffStats.compare this (fst pair) (snd pair)).

(** [compareFilesIn] for the folders of a list, in order. *)
Fixpoint compareFolders (this : DiffStats.t) (folders : list String.string)
  : option DiffStats.t :=
  match folders with
  | [] => Some this
  | folder :: rest =>
      this' ← compareFilesIn this folder;
      compareFolders this' rest
  end.
End Corpus.



(** A line with whitespace other than line breaks put before and after
    it. *)
Definition padded (l l' : jsstring) : Prop :=
  exists pre post : jsstring,
    Forall (fun c => isWhiteSpace c = true /\ c <> LF) pre
    /\ Forall (fun c => isWhiteSpace c = true /\ c <> LF) post
    /\ l' = pre ++ l ++ post.

(** A line that holds nothing but whitespace. *)
Definition isBlank (l : jsstring) : Prop := trim l = [].

Section MoreExampleData.
#[local] Existing Instance blocks.
Local Open Scope string_scope.

(** A page from which nothing is extracted. *)
Definition emptyPair : @document blocks * @document blocks :=
  ([str "Hello"], []).

(** A page with no expected text from which something is extracted. *)
Definition surplusPair : @document blocks * @document blocks :=
  ([], [str "Hello"]).

(** A disk that holds the two files of every folder but ["missing"]. *)
#[local] Instance disk : Fixtures := {|
  domFromFile := fun folder fileName =>
    if String.eqb folder "missing" then None
    else Some [str fileName]
|}.
End MoreExampleData.

(* ===================================================================== *)
(** * Properties of the text normalisation *)
(* ===================================================================== *)

Section Lines.
Variable sep : N.

Lemma split_nonempty (s : jsstring) : split sep s <> [].
Proof.
  destruct s as [|c t]; simpl; [discriminate|].
  destruct (c =? sep); [discriminate|].
  destruct (split sep t); discriminate.
Qed.

Lemma join_cons (l : jsstring) (rest : list jsstring) :
  rest <> [] -> join [sep] (l :: rest) = l ++ sep :: join [sep] rest.
Proof. destruct rest; [congruence|reflexivity]. Qed.

Lemma join_split (s : jsstring) : join [sep] (split sep s) = s.
Proof.
  induction s as [|c t IH]; [reflexivity|].
  simpl. destruct (N.eqb_spec c sep) as [->|Hne].
  - rewrite join_cons by apply split_nonempty. simpl. now rewrite IH.
  - pose proof (split_nonempty t) as Hnil.
    destruct (split sep t) as [|l ls]; [congruence|].
    destruct ls as [|l' ls]; simpl in *; now rewrite <- IH.
Qed.

Lemma split_free (l : jsstring) : ~ In sep l -> split sep l = [l].
Proof.
  induction l as [|c t IH]; intros Hfree; [reflexivity|].
  simpl. destruct (N.eqb_spec c sep) as [->|Hne].
  - exfalso. apply Hfree. now left.
  - rewrite IH; [reflexivity|]. intros Hin. apply Hfree. now right.
Qed.

Lemma split_app (l s : jsstring) :
  ~ In sep l -> split sep (l ++ sep :: s) = l :: split sep s.
Proof.
  induction l as [|c t IH]; intros Hfree; simpl.
  - now rewrite N.eqb_refl.
  - destruct (N.eqb_spec c sep) as [->|Hne].
    + exfalso. apply Hfree. now left.
    + rewrite IH; [reflexivity|]. intros Hin. apply Hfree. now right.
Qed.

Lemma split_join (ls : list jsstring) :
  ls <> [] -> Forall (fun l => ~ In sep l) ls -> split sep (join [sep] ls) = ls.
Proof.
  induction ls as [|l rest IH]; [congruence|].
  intros _ Hall. inversion Hall as [|? ? Hl Hrest]; subst.
  destruct rest as [|l' rest].
  - simpl. now apply split_free.
  - rewrite join_cons by discriminate.
    rewrite split_app by assumption.
    now rewrite IH.
Qed.

Lemma split_lines_free (s : jsstring) :
  Forall (fun l => ~ In sep l) (split sep s).
Proof.
  induction s as [|c t IH]; simpl.
  - constructor; [|constructor]. intros [].
  - destruct (N.eqb_spec c sep) as [->|Hne].
    + constructor; [intros []|assumption].
    + destruct (split sep t) as [|l ls].
      * constructor; [|constructor]. intros [Heq|[]]. congruence.
      * inversion IH; subst. constructor; [|assumption].
        intros [Heq|Hin]; congruence.
Qed.
End Lines.

(** ** Trimming *)

Lemma trimStart_clean (s : jsstring) : startsClean (trimStart s).
Proof.
  induction s as [|c t IH]; simpl; [exact I|].
  destruct (isWhiteSpace c) eqn:Hc; [assumption|exact Hc].
Qed.

Lemma trimStart_id (s : jsstring) : startsClean s -> trimStart s = s.
Proof. destruct s as [|c t]; simpl; [reflexivity|]. now intros ->. Qed.

Lemma trimStart_In (x : N) (s : jsstring) : In x (trimStart s) -> In x s.
Proof.
  induction s as [|c t IH]; simpl; [tauto|].
  destruct (isWhiteSpace c); simpl; tauto.
Qed.

Lemma trimStart_snoc (u : jsstring) (c : N) :
  isWhiteSpace c = false -> trimStart (u ++ [c]) = trimStart u ++ [c].
Proof.
  intros Hc. induction u as [|d u IH]; simpl.
  - now rewrite Hc.
  - destruct (isWhiteSpace d); [assumption|reflexivity].
Qed.

Lemma trimEnd_cons (c : N) (t : jsstring) :
  isWhiteSpace c = false -> trimEnd (c :: t) = c :: trimEnd t.
Proof.
  intros Hc. unfold trimEnd. simpl.
  rewrite trimStart_snoc by assumption.
  rewrite rev_app_distr. reflexivity.
Qed.

Lemma trimEnd_clean (s : jsstring) : startsClean s -> startsClean (trimEnd s).
Proof.
  destruct s as [|c t]; intros Hs.
  - exact I.
  - simpl in Hs. rewrite trimEnd_cons by assumption. exact Hs.
Qed.

Lemma trimEnd_idem (s : jsstring) : trimEnd (trimEnd s) = trimEnd s.
Proof.
  unfold trimEnd. rewrite rev_involutive.
  rewrite (trimStart_id (trimStart (rev s))) by apply trimStart_clean.
  reflexivity.
Qed.

Lemma trim_idem (s : jsstring) : trim (trim s) = trim s.
Proof.
  unfold trim.
  rewrite (trimStart_id (trimEnd (trimStart s))).
  - apply trimEnd_idem.
  - apply trimEnd_clean, trimStart_clean.
Qed.

Lemma trim_In (x : N) (s : jsstring) : In x (trim s) -> In x s.
Proof.
  unfold trim, trimEnd. intros Hin.
  apply in_rev, trimStart_In, in_rev in Hin.
  now apply trimStart_In.
Qed.

(** ** Collapsing line breaks *)

Lemma collapseNewlines_cons (c : N) (t : jsstring) :
  collapseNewlines (c :: t) =
  match matchNewlines (c :: t) with
  | Some rest => LF :: collapseNewlines rest
  | None => c :: collapseNewlines t
  end.
Proof.
  simp collapseNewlines.
  generalize (inspect (matchNewlines (c :: t))).
  intros [[rest|] Heq]; simp collapseNewlines; rewrite Heq; reflexivity.
Qed.

Lemma collapseNewlines_other (c : N) (t : jsstring) :
  c <> LF -> collapseNewlines (c :: t) = c :: collapseNewlines t.
Proof.
  intros Hc. rewrite collapseNewlines_cons. unfold matchNewlines.
  destruct t as [|b u]; [reflexivity|].
  destruct (N.eqb_spec c LF); [contradiction|reflexivity].
Qed.

Lemma collapseNewlines_LF (s : jsstring) :
  collapseNewlines (LF :: s) = LF :: collapseNewlines (skipNewlines s).
Proof.
  rewrite collapseNewlines_cons. unfold matchNewlines.
  destruct s as [|b u]; [reflexivity|].
  simpl. destruct (N.eqb_spec b LF) as [->|Hb]; reflexivity.
Qed.

Lemma collapseNewlines_app (l s : jsstring) :
  ~ In LF l -> collapseNewlines (l ++ s) = l ++ collapseNewlines s.
Proof.
  induction l as [|c t IH]; intros Hfree; [reflexivity|].
  simpl. rewrite collapseNewlines_other.
  - rewrite IH; [reflexivity|]. intros Hin. apply Hfree. now right.
  - intros ->. apply Hfree. now left.
Qed.

Lemma collapseNewlines_free (l : jsstring) :
  ~ In LF l -> collapseNewlines l = l.
Proof.
  intros Hfree. rewrite <- (app_nil_r l) at 1.
  rewrite collapseNewlines_app by assumption.
  simp collapseNewlines. apply app_nil_r.
Qed.

Lemma dropLeadingBlank_nonempty (lines : list jsstring) :
  lines <> [] -> dropLeadingBlank lines <> [].
Proof.
  induction lines as [|l rest IH]; [congruence|]. intros _.
  destruct l; [|discriminate].
  destruct rest; [discriminate|]. simpl. apply IH. discriminate.
Qed.

Lemma dropLeadingBlank_length (lines : list jsstring) :
  (length (dropLeadingBlank lines) <= length lines)%nat.
Proof.
  induction lines as [|l rest IH]; [reflexivity|].
  destruct l; [|reflexivity].
  destruct rest; [reflexivity|]. simpl in *. lia.
Qed.

Lemma dropLeadingBlank_Forall (P : jsstring -> Prop) (lines : list jsstring) :
  Forall P lines -> Forall P (dropLeadingBlank lines).
Proof.
  induction lines as [|l rest IH]; intros Hall; [assumption|].
  destruct l; [|assumption].
  destruct rest; [assumption|].
  simpl. apply IH. now inversion Hall.
Qed.

Lemma skipNewlines_LF (s : jsstring) :
  skipNewlines (LF :: s) = skipNewlines s.
Proof. reflexivity. Qed.

Lemma skipNewlines_join (lines : list jsstring) :
  Forall (fun l => ~ In LF l) lines ->
  skipNewlines (join [LF] lines) = join [LF] (dropLeadingBlank lines).
Proof.
  induction lines as [|l rest IH]; intros Hall; [reflexivity|].
  inversion Hall as [|? ? Hl Hrest]; subst.
  destruct l as [|c l].
  - destruct rest as [|r rs]; [reflexivity|].
    rewrite join_cons by discriminate.
    rewrite app_nil_l, skipNewlines_LF.
    now rewrite IH.
  - assert (Hc : c <> LF) by (intros ->; apply Hl; now left).
    destruct rest as [|r rs]; simpl;
      destruct (N.eqb_spec c LF); try contradiction; reflexivity.
Qed.

Lemma dropInnerBlank_nonempty (rest : list jsstring) :
  rest <> [] -> dropInnerBlank rest <> [].
Proof.
  induction rest as [|l rest IH]; [congruence|]. intros _.
  destruct rest as [|r rs]; [discriminate|].
  destruct l; [|discriminate].
  apply IH. discriminate.
Qed.

Lemma dropInnerBlank_leading (rest : list jsstring) :
  dropInnerBlank rest = squeezeLines (dropLeadingBlank rest).
Proof.
  induction rest as [|l rest IH]; [reflexivity|].
  destruct rest as [|r rs]; [destruct l; reflexivity|].
  destruct l as [|c l]; [|reflexivity].
  exact IH.
Qed.

(** On a string given by its lines, [collapseNewlines] deletes the blank
    lines between the first and the last one. *)
Lemma collapseNewlines_join (lines : list jsstring) :
  Forall (fun l => ~ In LF l) lines ->
  collapseNewlines (join [LF] lines) = join [LF] (squeezeLines lines).
Proof.
  remember (length lines) as n eqn:Hn.
  revert lines Hn. induction n as [n IH] using lt_wf_ind.
  intros [|l rest] Hn Hall; [simp collapseNewlines; reflexivity|].
  inversion Hall as [|? ? Hl Hrest]; subst.
  destruct rest as [|r rs].
  - simpl. now apply collapseNewlines_free.
  - rewrite join_cons by discriminate.
    rewrite collapseNewlines_app by assumption.
    rewrite collapseNewlines_LF.
    rewrite skipNewlines_join by assumption.
    rewrite (IH (length (dropLeadingBlank (r :: rs)))); try reflexivity.
    + unfold squeezeLines at 2.
      rewrite join_cons by (apply dropInnerBlank_nonempty; discriminate).
      now rewrite dropInnerBlank_leading.
    + pose proof (dropLeadingBlank_length (r :: rs)). simpl in *. lia.
    + now apply dropLeadingBlank_Forall.
Qed.

(** ** The normalisation, line by line *)

Lemma trimmed_lines_free (s : jsstring) :
  Forall (fun l => ~ In LF l) (map trim (split LF s)).
Proof.
  apply Forall_map.
  eapply Forall_impl; [apply (split_lines_free LF)|].
  intros l Hl Hin. apply Hl. now apply trim_In.
Qed.

Lemma normalize_lines (s : jsstring) :
  normalize s = join [LF] (squeezeLines (map trim (split LF s))).
Proof.
  unfold normalize, trimLines.
  apply collapseNewlines_join, trimmed_lines_free.
Qed.

Lemma squeezeLines_Forall (P : jsstring -> Prop) (lines : list jsstring) :
  Forall P lines -> Forall P (squeezeLines lines).
Proof.
  destruct lines as [|l rest]; [trivial|].
  intros Hall. inversion Hall as [|? ? Hl Hrest]; subst.
  simpl. constructor; [assumption|]. clear Hl Hall.
  induction rest as [|r rs IH]; [constructor|].
  inversion Hrest; subst.
  destruct rs as [|r' rs]; [destruct r; now constructor|].
  destruct r; [now apply IH|].
  change (Forall P ((n :: r) :: dropInnerBlank (r' :: rs))).
  constructor; [assumption|now apply IH].
Qed.

Lemma dropInnerBlank_idem (rest : list jsstring) :
  dropInnerBlank (dropInnerBlank rest) = dropInnerBlank rest.
Proof.
  induction rest as [|l rest IH]; [reflexivity|].
  destruct rest as [|r rs]; [destruct l; reflexivity|].
  destruct l as [|c l]; [exact IH|].
  change (dropInnerBlank ((c :: l) :: r :: rs))
    with ((c :: l) :: dropInnerBlank (r :: rs)).
  pose proof (dropInnerBlank_nonempty (r :: rs)) as Hne.
  destruct (dropInnerBlank (r :: rs)) as [|x xs] eqn:Hd.
  - exfalso. now apply Hne.
  - change (dropInnerBlank ((c :: l) :: x :: xs))
      with ((c :: l) :: dropInnerBlank (x :: xs)).
    now rewrite IH.
Qed.

Lemma squeezeLines_idem (lines : list jsstring) :
  squeezeLines (squeezeLines lines) = squeezeLines lines.
Proof.
  destruct lines as [|l rest]; [reflexivity|].
  simpl. now rewrite dropInnerBlank_idem.
Qed.

Lemma squeezeLines_nonempty (lines : list jsstring) :
  lines <> [] -> squeezeLines lines <> [].
Proof. destruct lines; [congruence|discriminate]. Qed.

Lemma map_trim_fixed (lines : list jsstring) :
  Forall (fun l => trim l = l) lines -> map trim lines = lines.
Proof.
  induction 1 as [|l rest Hl _ IH]; [reflexivity|].
  simpl. now rewrite Hl, IH.
Qed.

(** C7.  The normalisation used by the metric is idempotent: for every
    string, applying [collapseNewlines] after [trimLines] twice gives the
    same string as applying it once. *)
Theorem normalize_idempotent (s : jsstring) :
  collapseNewlines (trimLines (collapseNewlines (trimLines s)))
  = collapseNewlines (trimLines s).
Proof.
  change (normalize (normalize s) = normalize s).
  rewrite (normalize_lines s).
  set (lines := squeezeLines (map trim (split LF s))).
  assert (Hne : lines <> []).
  { apply squeezeLines_nonempty. intros Hnil.
    apply map_eq_nil in Hnil. now apply split_nonempty in Hnil. }
  assert (Hfree : Forall (fun l => ~ In LF l) lines)
    by apply squeezeLines_Forall, trimmed_lines_free.
  assert (Htrim : Forall (fun l => trim l = l) lines).
  { apply squeezeLines_Forall, Forall_map, Forall_forall.
    intros l _. apply trim_idem. }
  rewrite normalize_lines.
  rewrite split_join by assumption.
  rewrite map_trim_fixed by assumption.
  unfold lines. now rewrite squeezeLines_idem.
Qed.

(* ===================================================================== *)
(** * Properties of the arithmetic *)
(* ===================================================================== *)

Lemma Positive_NonNeg (x : number) : Positive x -> NonNeg x.
Proof. destruct x as [[]|[]| |[] ? ?]; simpl; tauto. Qed.

Lemma Total_NonNeg (x : number) : Total x -> NonNeg x.
Proof. intros [->|Hx]; [exact I|now apply Positive_NonNeg]. Qed.

Section Shifts.
Local Open Scope Z_scope.

Lemma iter_pos_invariant {A : Type} (P : A -> Prop) (f : A -> A) :
  (forall x, P x -> P (f x)) ->
  forall (n : positive) (x : A), P x -> P (SpecFloat.iter_pos f n x).
Proof.
  intros Hf. induction n as [n IH|n IH|]; intros x Hx; simpl; auto.
Qed.

Lemma shr_1_m (mrs : shr_record) :
  0 <= shr_m mrs -> shr_m (shr_1 mrs) = shr_m mrs / 2.
Proof.
  destruct mrs as [m r s]. simpl. intros Hm.
  destruct m as [|[p|p|]|p]; simpl; try reflexivity; try lia.
  - rewrite (Pos2Z.inj_xI p). apply Z.div_unique with 1; lia.
  - rewrite (Pos2Z.inj_xO p). apply Z.div_unique with 0; lia.
Qed.

Lemma shr_1_nonneg (mrs : shr_record) :
  0 <= shr_m mrs -> 0 <= shr_m (shr_1 mrs).
Proof.
  intros Hm. rewrite shr_1_m by assumption. apply Z.div_pos; lia.
Qed.

Lemma iter_shr_1_nonneg (n : positive) (mrs : shr_record) :
  0 <= shr_m mrs -> 0 <= shr_m (SpecFloat.iter_pos shr_1 n mrs).
Proof.
  apply (iter_pos_invariant (fun mrs => 0 <= shr_m mrs)), shr_1_nonneg.
Qed.

Lemma iter_shr_1_m (n : positive) (mrs : shr_record) :
  0 <= shr_m mrs -> shr_m (SpecFloat.iter_pos shr_1 n mrs) = shr_m mrs / 2 ^ Zpos n.
Proof.
  revert mrs. induction n as [n IH|n IH|]; intros mrs Hm;
    cbn [SpecFloat.iter_pos].
  - rewrite IH by (apply iter_shr_1_nonneg, shr_1_nonneg, Hm).
    rewrite IH by (apply shr_1_nonneg, Hm).
    rewrite shr_1_m by assumption.
    rewrite !Z.div_div by lia.
    f_equal. rewrite (Pos2Z.inj_xI n).
    replace (2 * Zpos n + 1) with (1 + Zpos n + Zpos n) by lia.
    rewrite !Z.pow_add_r by lia. lia.
  - rewrite IH by (apply iter_shr_1_nonneg, Hm).
    rewrite IH by assumption.
    rewrite Z.div_div by lia.
    f_equal. rewrite (Pos2Z.inj_xO n).
    replace (2 * Zpos n) with (Zpos n + Zpos n) by lia.
    symmetry. apply Z.pow_add_r; lia.
  - rewrite shr_1_m by assumption. reflexivity.
Qed.

Lemma digits2_pos_lower (m : positive) :
  2 ^ (Zpos (digits2_pos m) - 1) <= Zpos m.
Proof.
  induction m as [m IH|m IH|]; simpl digits2_pos.
  - rewrite Pos2Z.inj_succ, (Pos2Z.inj_xI m).
    replace (Z.succ (Zpos (digits2_pos m)) - 1)
      with (1 + (Zpos (digits2_pos m) - 1)) by lia.
    rewrite Z.pow_add_r by lia. lia.
  - rewrite Pos2Z.inj_succ, (Pos2Z.inj_xO m).
    replace (Z.succ (Zpos (digits2_pos m)) - 1)
      with (1 + (Zpos (digits2_pos m) - 1)) by lia.
    rewrite Z.pow_add_r by lia. lia.
  - simpl. lia.
Qed.

Lemma shr_record_of_loc_m (m : Z) (l : location) :
  shr_m (shr_record_of_loc m l) = m.
Proof. destruct l as [|[]]; reflexivity. Qed.

Lemma round_nearest_even_lower (m : Z) (l : location) :
  m <= round_nearest_even m l.
Proof.
  destruct l as [|[]]; simpl; try lia.
  destruct (Z.even m); lia.
Qed.

(** Shifting to the canonical exponent keeps a mantissa non-negative. *)
Lemma shr_fexp_nonneg (m e : Z) (l : location) :
  0 <= m -> 0 <= shr_m (fst (shr_fexp prec emax m e l)).
Proof.
  intros Hm. unfold shr_fexp, shr.
  destruct (fexp prec emax (Zdigits2 m + e) - e) as [|n|n]; simpl;
    try (rewrite shr_record_of_loc_m; assumption).
  apply iter_shr_1_nonneg. now rewrite shr_record_of_loc_m.
Qed.

(** It keeps a positive mantissa positive when the exponent is in range:
    the shift then leaves [prec] digits. *)
Lemma shr_fexp_positive (m : positive) (e : Z) (l : location) :
  SpecFloat.emin prec emax <= e ->
  0 < shr_m (fst (shr_fexp prec emax (Zpos m) e l))
  /\ SpecFloat.emin prec emax <= snd (shr_fexp prec emax (Zpos m) e l).
Proof.
  intros He. unfold shr_fexp, shr. simpl Zdigits2.
  pose proof (digits2_pos_lower m) as Hd.
  destruct (fexp prec emax (Zpos (digits2_pos m) + e) - e) as [|n|n] eqn:Hn;
    simpl; try (rewrite shr_record_of_loc_m; lia).
  rewrite iter_shr_1_m by (rewrite shr_record_of_loc_m; lia).
  rewrite shr_record_of_loc_m.
  unfold fexp, SpecFloat.emin, prec, emax in *.
  split; [|lia].
  apply Z.div_str_pos. split; [lia|].
  eapply Z.le_trans; [|exact Hd].
  apply Z.pow_le_mono_r; lia.
Qed.

Lemma binary_round_aux_nonneg (m e : Z) (l : location) :
  0 <= m -> NonNeg (binary_round_aux prec emax false m e l).
Proof.
  intros Hm. unfold binary_round_aux.
  pose proof (shr_fexp_nonneg m e l Hm) as H1.
  destruct (shr_fexp prec emax m e l) as [mrs' e'] eqn:E1. simpl in H1.
  pose proof (round_nearest_even_lower (shr_m mrs') (loc_of_shr_record mrs')) as Hr.
  pose proof (shr_fexp_nonneg
                (round_nearest_even (shr_m mrs') (loc_of_shr_record mrs'))
                e' loc_Exact ltac:(lia)) as H2.
  destruct (shr_fexp prec emax (round_nearest_even _ _) e' loc_Exact)
    as [mrs'' e''] eqn:E2. simpl in H2.
  destruct (shr_m mrs'') as [|p|p]; [exact I| |lia].
  destruct (e'' <=? emax - prec); exact I.
Qed.

Lemma binary_round_aux_positive (m : positive) (e : Z) (l : location) :
  SpecFloat.emin prec emax <= e ->
  Positive (binary_round_aux prec emax false (Zpos m) e l).
Proof.
  intros He. unfold binary_round_aux.
  destruct (shr_fexp_positive m e l He) as [H1 He1].
  destruct (shr_fexp prec emax (Zpos m) e l) as [mrs' e'] eqn:E1.
  simpl in H1, He1.
  pose proof (round_nearest_even_lower (shr_m mrs') (loc_of_shr_record mrs')) as Hr.
  destruct (round_nearest_even (shr_m mrs') (loc_of_shr_record mrs'))
    as [|m'|m'] eqn:Em'; try lia.
  destruct (shr_fexp_positive m' e' loc_Exact He1) as [H2 He2].
  destruct (shr_fexp prec emax (Zpos m') e' loc_Exact) as [mrs'' e''] eqn:E2.
  simpl in H2, He2.
  destruct (shr_m mrs'') as [|p|p]; try lia.
  destruct (e'' <=? emax - prec); [exact He2|exact I].
Qed.
End Shifts.

Section Arithmetic.
Local Open Scope Z_scope.

Lemma binary_round_positive (m : positive) (e : Z) :
  SpecFloat.emin prec emax <= e ->
  Positive (binary_round prec emax false m e).
Proof.
  intros He. unfold binary_round, shl_align.
  set (e' := fexp prec emax (Zpos (digits2_pos m) + e)).
  assert (He' : SpecFloat.emin prec emax <= e') by (unfold e', fexp; lia).
  destruct (e' - e); now apply binary_round_aux_positive.
Qed.

Lemma ofNat_Total (n : nat) : Total (ofNat n).
Proof.
  unfold ofNat, ofZ, dyadic, binary_normalize.
  destruct (Z.of_nat n) as [|p|p] eqn:Hn; [now left| |lia].
  right. apply binary_round_positive. unfold SpecFloat.emin, prec, emax. lia.
Qed.

Lemma ofNat_Positive (n : nat) : n <> 0%nat -> Positive (ofNat n).
Proof.
  intros Hn. destruct (ofNat_Total n) as [Hz|Hp]; [|assumption].
  exfalso. revert Hz. unfold ofNat, ofZ, dyadic, binary_normalize.
  destruct (Z.of_nat n) as [|p|p] eqn:Hp; [lia| |lia].
  intros Hz.
  assert (Hpos : Positive (binary_round prec emax false p 0)).
  { apply binary_round_positive. unfold SpecFloat.emin, prec, emax. lia. }
  rewrite Hz in Hpos. exact Hpos.
Qed.

Lemma jsadd_Positive_l (x y : number) :
  Positive x -> Total y -> Positive (jsadd x y).
Proof.
  intros Hx [->|Hy].
  - destruct x as [[]|[]| |[] mx ex]; simpl in *; tauto.
  - destruct x as [[]|[]| |[] mx ex], y as [[]|[]| |[] my ey];
      simpl in *; try tauto.
    apply binary_round_positive. lia.
Qed.

Lemma jsadd_Total (x y : number) : Total x -> Total y -> Total (jsadd x y).
Proof.
  intros [->|Hx] Hy.
  - destruct Hy as [->|Hy]; [now left|].
    right. destruct y as [[]|[]| |[] my ey]; simpl in *; tauto.
  - right. now apply jsadd_Positive_l.
Qed.

Lemma jsadd_Positive_r (x y : number) :
  Total x -> Positive y -> Positive (jsadd x y).
Proof.
  intros [->|Hx] Hy.
  - destruct y as [[]|[]| |[] my ey]; simpl in *; tauto.
  - apply jsadd_Positive_l; [assumption|now right].
Qed.

Lemma div_eucl_nonneg (a : Z) (b : positive) :
  0 <= a -> 0 <= fst (Z.div_eucl a (Zpos b)).
Proof.
  intros Ha. change (0 <= a / Zpos b). apply Z.div_pos; lia.
Qed.

Lemma jsdiv_finite_NonNeg (mx my : positive) (ex ey : Z) :
  NonNeg (jsdiv (S754_finite false mx ex) (S754_finite false my ey)).
Proof.
  unfold jsdiv, SFdiv, SFdiv_core_binary.
  set (m' := match _ - _ - _ with
             | 0 => Zpos mx
             | Zpos _ => Z.shiftl (Zpos mx) _
             | Zneg _ => 0
             end).
  assert (Hm' : 0 <= m').
  { unfold m'. destruct (_ - _ - _); try lia. apply Z.shiftl_nonneg. lia. }
  pose proof (div_eucl_nonneg m' my Hm') as Hq.
  destruct (Z.div_eucl m' (Zpos my)) as [q r]. simpl in Hq.
  now apply binary_round_aux_nonneg.
Qed.

(** A quotient of non-negative numbers is non-negative or [NaN]. *)
Lemma jsdiv_NonNeg_or_NaN (x y : number) :
  NonNeg x -> NonNeg y -> NonNeg (jsdiv x y) \/ jsdiv x y = NaN.
Proof.
  intros Hx Hy.
  destruct x as [[]|[]| |[] mx ex], y as [[]|[]| |[] my ey];
    simpl in Hx, Hy; try contradiction;
    try (left; exact I); try (right; reflexivity).
  left. apply jsdiv_finite_NonNeg.
Qed.

(** It is a number when the divisor is finite and not zero. *)
Lemma jsdiv_NonNeg (x y : number) :
  NonNeg x -> Positive y -> y <> Infinity -> NonNeg (jsdiv x y).
Proof.
  intros Hx Hy Hfin.
  destruct x as [[]|[]| |[] mx ex], y as [[]|[]| |[] my ey];
    simpl in Hx, Hy; try contradiction; try exact I;
    try (exfalso; apply Hfin; reflexivity).
  apply jsdiv_finite_NonNeg.
Qed.

(** It is [NaN] only for zero by zero and [Infinity] by [Infinity]. *)
Lemma jsdiv_NaN_iff (x y : number) :
  Total x -> Total y ->
  jsdiv x y = NaN
  <-> (x = zero /\ y = zero) \/ (x = Infinity /\ y = Infinity).
Proof.
  intros Hx Hy.
  destruct x as [[]|[]| |[] mx ex];
    try (exfalso; destruct Hx as [Hx|Hx]; [discriminate Hx|exact Hx]);
    destruct y as [[]|[]| |[] my ey];
    try (exfalso; destruct Hy as [Hy|Hy]; [discriminate Hy|exact Hy]);
    clear Hx Hy.
  9: { split.
       - intros Hq. pose proof (jsdiv_finite_NonNeg mx my ex ey) as Hn.
         rewrite Hq in Hn. contradiction.
       - intros [[Hx _]|[Hx _]]; discriminate Hx. }
  all: split;
    [ intros Hq; first [discriminate Hq | left; now split | right; now split]
    | intros [[H1 H2]|[H1 H2]];
      first [discriminate H1 | discriminate H2 | reflexivity] ].
Qed.

Lemma jsdiv_zero (y : number) : Positive y -> jsdiv zero y = zero.
Proof. destruct y as [[]|[]| |[] my ey]; simpl; tauto. Qed.

Lemma jsmul_NonNeg (x : number) (m : positive) (e : Z) :
  NonNeg x -> NonNeg (jsmul x (S754_finite false m e)).
Proof.
  destruct x as [[]|[]| |[] mx ex]; simpl; try tauto.
  intros _. apply binary_round_aux_nonneg. lia.
Qed.

Lemma jsmul_NaN_iff (x : number) (m : positive) (e : Z) :
  NonNeg x \/ x = NaN ->
  jsmul x (S754_finite false m e) = NaN <-> x = NaN.
Proof.
  intros [Hx| ->]; [|split; reflexivity].
  pose proof (jsmul_NonNeg x m e Hx) as Hn. split.
  - intros Hq. rewrite Hq in Hn. contradiction.
  - intros ->. contradiction.
Qed.

Lemma hundred_finite : exists m e, ofZ 100 = S754_finite false m e.
Proof. eexists _, _. reflexivity. Qed.

Lemma jsmul_comm (x y : number) : jsmul x y = jsmul y x.
Proof.
  destruct x as [sx|sx| |sx mx ex], y as [sy|sy| |sy my ey]; simpl;
    try reflexivity; try (now rewrite xorb_comm).
  unfold jsmul, SFmul.
  now rewrite xorb_comm, Pos.mul_comm, Z.add_comm.
Qed.

Lemma NonNeg_not_lt_zero (x : number) : NonNeg x -> jslt x zero = false.
Proof. destruct x as [[]|[]| |[] mx ex]; simpl; tauto. Qed.

Lemma NonNeg_zero_le (x : number) : NonNeg x -> jsle zero x = true.
Proof. destruct x as [[]|[]| |[] mx ex]; simpl; tauto. Qed.
End Arithmetic.

(* ===================================================================== *)
(** * Properties of the quality metric *)
(* ===================================================================== *)

Section Metric.
Context `{Substrate}.

Lemma compareAll_contentFnodes (pairs : list (document * document))
    (st : DiffStats.t) :
  DiffStats.contentFnodes (compareAll st pairs) = DiffStats.contentFnodes st.
Proof.
  revert st. induction pairs as [|pair pairs IH]; intros st; [reflexivity|].
  simpl. now rewrite IH.
Qed.

(** The running totals after a series of comparisons are the totals
    before, with the per-pair amounts added one by one. *)
Lemma compareAll_totals (pairs : list (document * document))
    (st : DiffStats.t) :
  DiffStats.lengthOfDiffs (compareAll st pairs)
  = fold_left jsadd (map (editDistance (DiffStats.contentFnodes st)) pairs)
              (DiffStats.lengthOfDiffs st)
  /\ DiffStats.lengthOfExpectedTexts (compareAll st pairs)
     = fold_left jsadd (map expectedLength pairs)
                 (DiffStats.lengthOfExpectedTexts st).
Proof.
  revert st. induction pairs as [|pair pairs IH]; intros st; [now split|].
  simpl. destruct (IH (DiffStats.compare st (fst pair) (snd pair))) as [Hd Hl].
  split; [rewrite Hd|rewrite Hl]; reflexivity.
Qed.

Lemma constructor_fresh (c : option (document -> list fnode))
    (st0 : DiffStats.t) :
  DiffStats.constructor c = Normal st0 ->
  DiffStats.lengthOfExpectedTexts st0 = zero
  /\ DiffStats.lengthOfDiffs st0 = zero.
Proof.
  destruct c as [f|]; intros Hc; inversion Hc; now split.
Qed.

(** C1.  On a [DiffStats] instance on which [compare] has been called at
    least once, [score()] returns 100 multiplied by the sum of the
    accumulated edit distances divided by the sum of the accumulated
    lengths of the normalised expected texts. *)
Theorem score_formula (c : option (document -> list fnode))
    (st0 : DiffStats.t) (pair : document * document)
    (pairs : list (document * document)) :
  DiffStats.constructor c = Normal st0 ->
  DiffStats.score (compareAll st0 (pair :: pairs))
  = jsmul (ofZ 100)
      (jsdiv (sumOf (map (editDistance (DiffStats.contentFnodes st0)) (pair :: pairs)))
             (sumOf (map expectedLength (pair :: pairs)))).
Proof.
  intros Hc. destruct (constructor_fresh c st0 Hc) as [Hl Hd].
  destruct (compareAll_totals (pair :: pairs) st0) as [Hds Hls].
  unfold DiffStats.score. rewrite Hds, Hls, Hl, Hd.
  apply jsmul_comm.
Qed.

(** C2, as the code has it.  [score()] on an instance on which [compare]
    was never called returns [NaN]: both totals are zero, the quotient of
    zero by zero is [NaN], and no error is raised. *)
Theorem score_without_compare (c : option (document -> list fnode)) :
  (DiffStats.constructor c ≫= fun st => Normal (DiffStats.score st))
  = Normal NaN.
Proof. destruct c; reflexivity. Qed.

End Metric.

Section Sums.
Lemma fold_jsadd_Total (xs : list number) (acc : number) :
  Forall Total xs -> Total acc -> Total (fold_left jsadd xs acc).
Proof.
  revert acc. induction xs as [|x xs IH]; intros acc Hxs Hacc; [assumption|].
  inversion Hxs; subst. simpl. apply IH; [assumption|].
  now apply jsadd_Total.
Qed.

Lemma fold_jsadd_Positive_acc (xs : list number) (acc : number) :
  Forall Total xs -> Positive acc -> Positive (fold_left jsadd xs acc).
Proof.
  revert acc. induction xs as [|x xs IH]; intros acc Hxs Hacc; [assumption|].
  inversion Hxs; subst. simpl. apply IH; [assumption|].
  now apply jsadd_Positive_l.
Qed.

Lemma fold_jsadd_Positive (xs : list number) (acc : number) :
  xs <> [] -> Forall Positive xs -> Total acc ->
  Positive (fold_left jsadd xs acc).
Proof.
  destruct xs as [|x xs]; [congruence|]. intros _ Hxs Hacc.
  inversion Hxs; subst. simpl.
  apply fold_jsadd_Positive_acc.
  - eapply Forall_impl; [eassumption|]. intros y Hy. now right.
  - now apply jsadd_Positive_r.
Qed.

Lemma fold_jsadd_Positive_Exists (xs : list number) (acc : number) :
  Forall Total xs -> Exists Positive xs -> Total acc ->
  Positive (fold_left jsadd xs acc).
Proof.
  intros Hall Hex. revert acc Hall.
  induction Hex as [x xs Hx|x xs _ IH]; intros acc Hall Hacc;
    inversion Hall; subst; simpl.
  - apply fold_jsadd_Positive_acc; [assumption|].
    now apply jsadd_Positive_r.
  - apply IH; [assumption|]. now apply jsadd_Total.
Qed.

Lemma fold_jsadd_zero (xs : list number) :
  Forall (fun x => x = zero) xs -> fold_left jsadd xs zero = zero.
Proof.
  induction 1 as [|x xs -> _ IH]; [reflexivity|]. exact IH.
Qed.

Lemma levenshtein_refl (s : jsstring) : levenshtein s s = 0%nat.
Proof.
  induction s as [|c s IH]; [reflexivity|].
  simpl. rewrite N.eqb_refl, IH. simpl. lia.
Qed.
End Sums.

Section MetricBounds.
Context `{Substrate}.

Lemma editDistance_Total (cf : document -> list fnode)
    (pairs : list (document * document)) :
  Forall Total (map (editDistance cf) pairs).
Proof.
  apply Forall_map, Forall_forall. intros pair _. apply ofNat_Total.
Qed.

Lemma expectedLength_Total (pairs : list (document * document)) :
  Forall Total (map expectedLength pairs).
Proof.
  apply Forall_map, Forall_forall. intros pair _. apply ofNat_Total.
Qed.

(** C9, as the code has it.  After the constructor and any sequence of
    [compare] calls [score()] is never below zero: it is [NaN] exactly
    when both running totals are zero or both are [Infinity], and in
    every other case it is at least zero.  When some comparison had a
    normalised expected text that is not empty, it is at least zero
    unless both totals have overflowed to [Infinity], and it is zero
    when in every comparison the extracted text equals the expected text
    after normalisation. *)
Theorem score_bounds (c : option (document -> list fnode))
    (st0 : DiffStats.t) (pairs : list (document * document)) :
  DiffStats.constructor c = Normal st0 ->
  (DiffStats.score (compareAll st0 pairs) = NaN
   <-> (DiffStats.lengthOfDiffs (compareAll st0 pairs) = zero
        /\ DiffStats.lengthOfExpectedTexts (compareAll st0 pairs) = zero)
       \/ (DiffStats.lengthOfDiffs (compareAll st0 pairs) = Infinity
           /\ DiffStats.lengthOfExpectedTexts (compareAll st0 pairs)
              = Infinity))
  /\ (DiffStats.score (compareAll st0 pairs) <> NaN ->
      jsle zero (DiffStats.score (compareAll st0 pairs)) = true)
  /\ jslt (DiffStats.score (compareAll st0 pairs)) zero = false
  /\ (Exists (fun pair => expectedText pair <> []) pairs ->
      (~ (DiffStats.lengthOfDiffs (compareAll st0 pairs) = Infinity
          /\ DiffStats.lengthOfExpectedTexts (compareAll st0 pairs)
             = Infinity) ->
       jsle zero (DiffStats.score (compareAll st0 pairs)) = true)
      /\ (Forall (fun pair => gotText (DiffStats.contentFnodes st0) pair
                              = expectedText pair) pairs ->
          DiffStats.score (compareAll st0 pairs) = zero)).
Proof.
  intros Hc. destruct (constructor_fresh c st0 Hc) as [Hl0 Hd0].
  destruct (compareAll_totals pairs st0) as [Hd Hl].
  rewrite Hd0 in Hd. rewrite Hl0 in Hl.
  destruct hundred_finite as (m100 & e100 & H100).
  assert (HdT : Total (DiffStats.lengthOfDiffs (compareAll st0 pairs))).
  { rewrite Hd. apply fold_jsadd_Total; [apply editDistance_Total|now left]. }
  assert (HlT : Total (DiffStats.lengthOfExpectedTexts (compareAll st0 pairs))).
  { rewrite Hl. apply fold_jsadd_Total; [apply expectedLength_Total|now left]. }
  pose proof (jsdiv_NonNeg_or_NaN _ _ (Total_NonNeg _ HdT) (Total_NonNeg _ HlT))
    as Hq.
  assert (Hnan : DiffStats.score (compareAll st0 pairs) = NaN
                 <-> (DiffStats.lengthOfDiffs (compareAll st0 pairs) = zero
                      /\ DiffStats.lengthOfExpectedTexts (compareAll st0 pairs)
                         = zero)
                     \/ (DiffStats.lengthOfDiffs (compareAll st0 pairs)
                         = Infinity
                         /\ DiffStats.lengthOfExpectedTexts
                              (compareAll st0 pairs) = Infinity)).
  { unfold DiffStats.score. rewrite H100, (jsmul_NaN_iff _ m100 e100 Hq).
    now apply jsdiv_NaN_iff. }
  assert (Hnum : DiffStats.score (compareAll st0 pairs) <> NaN ->
                 jsle zero (DiffStats.score (compareAll st0 pairs)) = true).
  { unfold DiffStats.score. rewrite H100. intros Hs.
    destruct Hq as [Hq|Hq]; [|rewrite Hq in Hs; now contradiction Hs].
    now apply NonNeg_zero_le, jsmul_NonNeg. }
  split; [exact Hnan|]. split; [exact Hnum|]. split.
  - unfold DiffStats.score. rewrite H100. destruct Hq as [Hq|Hq].
    + now apply NonNeg_not_lt_zero, jsmul_NonNeg.
    + rewrite Hq. reflexivity.
  - intros Hsome.
    assert (HlP : Positive (DiffStats.lengthOfExpectedTexts (compareAll st0 pairs))).
    { rewrite Hl. apply fold_jsadd_Positive_Exists;
        [apply expectedLength_Total| |now left].
      clear - Hsome. induction Hsome as [pair rest Hpair|pair rest _ IH];
        [left|right; exact IH].
      apply ofNat_Positive. intros Hlen. apply Hpair.
      now apply length_zero_iff_nil. }
    split.
    + intros Hfin. apply Hnum. intros Hs. apply Hnan in Hs.
      destruct Hs as [[_ Hz]|Hinf]; [|now apply Hfin].
      rewrite Hz in HlP. exact HlP.
    + intros Hsame.
      assert (Hz : DiffStats.lengthOfDiffs (compareAll st0 pairs) = zero).
      { rewrite Hd. apply fold_jsadd_zero, Forall_map.
        eapply Forall_impl; [exact Hsame|].
        intros pair Hpair. unfold editDistance, leven.
        rewrite Hpair, levenshtein_refl. reflexivity. }
      unfold DiffStats.score. rewrite Hz, jsdiv_zero by assumption. reflexivity.
Qed.

(** C6, as the code has it.  [compare] normalises both texts by trimming
    each line and then deleting every blank line that lies between the
    first and the last line, which is what replacing each run of two or
    more line breaks by a single line break does; it adds the edit
    distance between the two normalised strings and the length of the
    normalised expected text to the running totals. *)
Theorem compare_accumulates (this : DiffStats.t)
    (expectedDom sourceDom : document) :
  let lines (s : jsstring) : jsstring :=
    join [LF] (squeezeLines (map trim (split LF s))) in
  let expected := lines (textContent expectedDom) in
  let got :=
    lines (join [LF]
             (map (fun fnode => elementTextContent (fnodeElement fnode))
                  (DiffStats.contentFnodes this sourceDom))) in
  DiffStats.compare this expectedDom sourceDom
  = {| DiffStats.lengthOfExpectedTexts :=
         jsadd (DiffStats.lengthOfExpectedTexts this) (strLength expected);
       DiffStats.lengthOfDiffs :=
         jsadd (DiffStats.lengthOfDiffs this) (leven expected got);
       DiffStats.contentFnodes := DiffStats.contentFnodes this |}.
Proof.
  intros lines expected got. unfold DiffStats.compare.
  fold (normalize (textContent expectedDom)).
  match goal with
  | |- context [collapseNewlines (trimLines ?s)] => fold (normalize s)
  end.
  rewrite !normalize_lines. reflexivity.
Qed.
End MetricBounds.

(* ===================================================================== *)
(** * Properties of the pipeline factory *)
(* ===================================================================== *)



Section Factory.
Context `{Substrate}.

(** The coefficients enter the pipeline through the seven parameters only:
    two argument lists that bind the same seven values give the same
    pipeline. *)
Lemma tunedContentFnodes_parameters (args args' : list value) :
  (forall i d, defaultCoefficients !! i = Some d ->
               parameter args' i d = parameter args i d) ->
  tunedContentFnodes args' = tunedContentFnodes args.
Proof.
  intros Hpar. unfold tunedContentFnodes.
  rewrite (Hpar 0%nat), (Hpar 1%nat), (Hpar 2%nat), (Hpar 3%nat),
    (Hpar 4%nat), (Hpar 5%nat), (Hpar 6%nat) by reflexivity.
  reflexivity.
Qed.

Lemma defaultCoefficients_defined (i : nat) (d : value) :
  defaultCoefficients !! i = Some d -> d <> VUndefined.
Proof.
  do 7 (destruct i as [|i]; [intros [= <-]; discriminate|]).
  discriminate.
Qed.



(** What [scoreByLength] returns: the score is the inline text length times
    the length coefficient, and the note holds that same, scaled, number. *)
Lemma scoreByLength_scaled (coeffLength : value) (fnode : fnode) :
  score (scoreByLength coeffLength fnode)
  = jsmul (inlineTextLength (fnodeElement fnode)) (ToNumber coeffLength)
  /\ inlineLength (note_ (scoreByLength coeffLength fnode))
     = score (scoreByLength coeffLength fnode).
Proof. split; reflexivity. Qed.
End Factory.

(* ===================================================================== *)
(** * Properties of the tuner *)
(* ===================================================================== *)

Section ShiftValue.
Local Open Scope Z_scope.





End ShiftValue.

Section RandomIndex.
Local Open Scope Z_scope.

Lemma digits2_pos_upper (m : positive) : Zpos m < 2 ^ Zpos (digits2_pos m).
Proof.
  induction m as [m IH|m IH|]; simpl digits2_pos.
  - rewrite Pos2Z.inj_succ, (Pos2Z.inj_xI m), Z.pow_succ_r by lia. lia.
  - rewrite Pos2Z.inj_succ, (Pos2Z.inj_xO m), Z.pow_succ_r by lia. lia.
  - simpl. lia.
Qed.



(** The shape of a number that [Math.random()] returns. *)
Lemma isRandom_shape (r : number) :
  isRandom r ->
  (exists s, r = S754_zero s)
  \/ exists m e, r = S754_finite false m e
                 /\ -1074 <= e <= -53
                 /\ Zpos m < 2 ^ 53 /\ Zpos m < 2 ^ (- e).
Proof.
  intros (Hvalid & Hle & Hlt).
  destruct r as [s|s| |s m e].
  - left. now exists s.
  - destruct s; discriminate.
  - discriminate.
  - right. destruct s; [discriminate|]. exists m, e. split; [reflexivity|].
    simpl in Hvalid. unfold bounded, canonical_mantissa in Hvalid.
    apply andb_prop in Hvalid as [Hcanon _].
    apply Z.eqb_eq in Hcanon. unfold fexp, SpecFloat.emin, prec, emax in Hcanon.
    pose proof (digits2_pos_lower m) as Hlo.
    pose proof (digits2_pos_upper m) as Hhi.
    assert (Hd : Zpos (digits2_pos m) <= 53) by lia.
    assert (He : e <= -53).
    { unfold jslt, SFltb in Hlt.
      change (ofZ 1) with (S754_finite false 4503599627370496 (-52)) in Hlt.
      cbv beta iota delta [SFcompare] in Hlt.
      destruct (Z.compare_spec e (-52)) as [He|He|He];
        [|lia|discriminate].
      exfalso. subst e.
      assert (Hm : (m < 4503599627370496)%positive).
      { apply Pos.compare_lt_iff. unfold Pos.compare.
        destruct (Pos.compare_cont Eq m 4503599627370496) eqn:Hcmp;
          [discriminate Hlt|exact Hcmp|discriminate Hlt]. }
      assert (Hd53 : Zpos (digits2_pos m) = 53) by (clear - Hcanon; lia).
      rewrite Hd53 in Hlo. change (2 ^ (53 - 1)) with 4503599627370496 in Hlo.
      apply Pos2Z.pos_lt_pos in Hm.
      exact (Z.lt_irrefl _ (Z.le_lt_trans _ _ _ Hlo Hm)). }
    assert (Hm53 : Zpos m < 2 ^ 53).
    { eapply Z.lt_le_trans; [exact Hhi|]. apply Z.pow_le_mono_r; lia. }
    split; [lia|]. split; [exact Hm53|].
    eapply Z.lt_le_trans; [exact Hm53|].
    apply Z.pow_le_mono_r; lia.
Qed.

End RandomIndex.

Section Tuner.



End Tuner.

Section RandomTransition.
Lemma slice_fresh (h : store) (a : loc) (elems : list value) :
  h !! a = Some elems ->
  slice h a = Some (<[fresh (dom h) := elems]> h, fresh (dom h))
  /\ h !! fresh (dom h) = None.
Proof.
  intros Ha. unfold slice. rewrite Ha. split; [reflexivity|].
  apply not_elem_of_dom, is_fresh.
Qed.


(** Every position is drawn by some outcome, and so is each direction. *)
Lemma every_index_is_drawn (i : nat) :
  (i < 7)%nat ->
  exists r, isRandom r /\ arrayIndex (Math_floor (jsmul r (ofNat 7))) = Some i.
Proof.
  intros Hi. exists (dyadic (9 * Z.of_nat i + 4) (-6)).
  do 7 (destruct i as [|i]; [repeat split|]). lia.
Qed.

Lemma both_directions_are_drawn :
  (exists r, isRandom r /\ truthy (Math_floor (jsmul r (ofZ 2))) = false)
  /\ (exists r, isRandom r /\ truthy (Math_floor (jsmul r (ofZ 2))) = true).
Proof.
  split; [exists zero|exists (dyadic 1 (-1))]; repeat split.
Qed.

End RandomTransition.

(* ===================================================================== *)
(** * The code run on examples *)
(* ===================================================================== *)

Section Examples.
#[local] Existing Instance blocks.
Local Open Scope string_scope.

(** C1, on an example: one comparison on the small substrate. *)
Lemma score_formula_witness :
  DiffStats.constructor None = Normal freshStats
  /\ DiffStats.score (compareAll freshStats [helloPair])
     = jsmul (ofZ 100)
         (jsdiv (sumOf (map (editDistance (DiffStats.contentFnodes freshStats))
                          [helloPair]))
                (sumOf (map expectedLength [helloPair]))).
Proof.
  split; [reflexivity|].
  apply (score_formula None freshStats helloPair []). reflexivity.
Defined.

(** C2 fails on the code: without any comparison [score()] returns [NaN]
    and [deviationScore] of an empty corpus completes normally with it;
    nothing is thrown. *)
Lemma score_without_compare_is_NaN :
  DiffStats.constructor None = Normal freshStats
  /\ DiffStats.score freshStats = NaN
  /\ deviationScore [] (Prim VUndefined) = Normal NaN
  /\ ~ exists e, deviationScore [] (Prim VUndefined) = Throw e.
Proof.
  repeat split; try reflexivity. intros [e He]. discriminate He.
Qed.

(** C3 fails on the code: with the default length coefficient 2, an
    element whose inline text length is 10 gets the note 20, not 10. *)
Lemma scoreByLength_note_is_scaled :
  let coeffLength := parameter [] 2 (VNumber (ofZ 2)) in
  let fnode : @fnode blocks := str "0123456789" in
  inlineTextLength (fnodeElement fnode) = ofZ 10
  /\ score (scoreByLength coeffLength fnode) = ofZ 20
  /\ inlineLength (note_ (scoreByLength coeffLength fnode)) = ofZ 20
  /\ inlineLength (note_ (scoreByLength coeffLength fnode))
     <> inlineTextLength (fnodeElement fnode).
Proof.
  repeat split; try reflexivity. vm_compute. discriminate.
Qed.


(** C6 fails on the code: on [a\n\n\nb] the code keeps no blank line and
    counts 3 code units, where collapsing the two blank lines into one
    would count 4. *)
Lemma compare_removes_blank_lines :
  normalize gappedText = [97; 10; 98]
  /\ normalize_spec gappedText = [97; 10; 10; 98]
  /\ DiffStats.lengthOfExpectedTexts
       (DiffStats.compare freshStats [gappedText] [gappedText]) = ofZ 3
  /\ DiffStats.lengthOfExpectedTexts
       (compare_spec freshStats [gappedText] [gappedText]) = ofZ 4
  /\ DiffStats.compare freshStats [gappedText] [gappedText]
     <> compare_spec freshStats [gappedText] [gappedText].
Proof.
  repeat split; try reflexivity.
  intros Heq. apply (f_equal DiffStats.lengthOfExpectedTexts) in Heq.
  vm_compute in Heq. discriminate Heq.
Qed.



(** C9, on an example: a comparison of two blank texts followed by one
    whose extraction is the expected text. *)
Lemma score_bounds_witness :
  DiffStats.constructor None = Normal freshStats
  /\ Exists (fun pair => expectedText pair <> []) [blankPair; helloPair]
  /\ Forall (fun pair => gotText (DiffStats.contentFnodes freshStats) pair
                         = expectedText pair) [blankPair; helloPair]
  /\ jslt (DiffStats.score (compareAll freshStats [blankPair; helloPair]))
          zero = false
  /\ jsle zero (DiffStats.score (compareAll freshStats [blankPair; helloPair]))
     = true
  /\ DiffStats.score (compareAll freshStats [blankPair; helloPair]) = zero.
Proof.
  assert (Hsome : Exists (fun pair => expectedText pair <> [])
                         [blankPair; helloPair]).
  { right. left. vm_compute. discriminate. }
  assert (Hsame : Forall (fun pair =>
                            gotText (DiffStats.contentFnodes freshStats) pair
                            = expectedText pair) [blankPair; helloPair]).
  { repeat constructor. }
  split; [reflexivity|]. split; [exact Hsome|]. split; [exact Hsame|].
  destruct (score_bounds None freshStats [blankPair; helloPair] eq_refl)
    as (_ & _ & Hneg & Hrest).
  destruct (Hrest Hsome) as [Hle Hzero].
  split; [exact Hneg|]. split.
  - apply Hle. intros [Hd _]. vm_compute in Hd. discriminate Hd.
  - exact (Hzero Hsame).
Defined.

(** C9 fails on the code: after one comparison in which the expected
    text and the extracted text are both empty after normalisation,
    [score()] is [NaN], of which [0 <= score()] is false; it is neither
    zero nor any other non-negative number. *)
Lemma score_of_blank_texts_is_NaN :
  DiffStats.constructor None = Normal freshStats
  /\ expectedText blankPair = []
  /\ gotText (DiffStats.contentFnodes freshStats) blankPair
     = expectedText blankPair
  /\ DiffStats.score (compareAll freshStats [blankPair]) = NaN
  /\ jsle zero (DiffStats.score (compareAll freshStats [blankPair])) = false
  /\ DiffStats.score (compareAll freshStats [blankPair]) <> zero.
Proof.
  repeat split; try reflexivity. vm_compute. discriminate.
Qed.
End Examples.

(* ===================================================================== *)
(** * Further properties of the text normalisation *)
(* ===================================================================== *)

Section TrimLines.

Lemma join_length_le (ls ls' : list jsstring) :
  Forall2 (fun l l' => (length l <= length l')%nat) ls ls' ->
  (length (join [LF] ls) <= length (join [LF] ls'))%nat.
Proof.
  induction 1 as [|l l' rest rest' Hl Hrest IH]; [reflexivity|].
  destruct Hrest as [|r r' rs rs' Hr Hrs].
  - exact Hl.
  - change (length (l ++ [LF] ++ join [LF] (r :: rs))
            <= length (l' ++ [LF] ++ join [LF] (r' :: rs')))%nat.
    rewrite !length_app. simpl length in *. lia.
Qed.

Lemma trimStart_length (s : jsstring) : (length (trimStart s) <= length s)%nat.
Proof.
  induction s as [|c t IH]; [reflexivity|].
  simpl. destruct (isWhiteSpace c); simpl; lia.
Qed.

Lemma trim_length (s : jsstring) : (length (trim s) <= length s)%nat.
Proof.
  unfold trim, trimEnd. rewrite length_rev.
  etransitivity; [apply trimStart_length|].
  rewrite length_rev. apply trimStart_length.
Qed.

Lemma trimLines_split (s : jsstring) :
  split LF (trimLines s) = map trim (split LF s).
Proof.
  unfold trimLines. apply split_join; [|apply trimmed_lines_free].
  intros Hnil. apply map_eq_nil in Hnil. now apply split_nonempty in Hnil.
Qed.

Lemma trimLines_shorter (s : jsstring) :
  (length (trimLines s) <= length s)%nat.
Proof.
  rewrite <- (join_split LF s) at 2. unfold trimLines.
  apply join_length_le.
  induction (split LF s) as [|l ls IH]; constructor; [apply trim_length|exact IH].
Qed.

(** X1.  [trimLines] changes no line break: the lines of its result are
    the lines of the string, each trimmed, in the same number and order.
    It is idempotent and never makes a string longer. *)
Theorem trimLines_lines (s : jsstring) :
  split LF (trimLines s) = map trim (split LF s)
  /\ trimLines (trimLines s) = trimLines s
  /\ (length (trimLines s) <= length s)%nat.
Proof.
  split; [apply trimLines_split|]. split; [|apply trimLines_shorter].
  unfold trimLines at 1. rewrite trimLines_split.
  unfold trimLines. f_equal. rewrite map_map.
  apply map_ext. intros l. apply trim_idem.
Qed.
End TrimLines.

Section CollapseNewlines.

Lemma skipNewlines_head (s : jsstring) :
  match skipNewlines s with
  | c :: _ => c <> LF
  | [] => True
  end.
Proof.
  induction s as [|c t IH]; [exact I|].
  simpl. destruct (N.eqb_spec c LF); [exact IH|assumption].
Qed.

Lemma skipNewlines_filter (s : jsstring) :
  List.filter (fun c => negb (c =? LF)) (skipNewlines s)
  = List.filter (fun c => negb (c =? LF)) s.
Proof.
  induction s as [|c t IH]; [reflexivity|].
  cbn [skipNewlines List.filter].
  destruct (c =? LF) eqn:Hc; cbn [negb List.filter]; [exact IH|].
  now rewrite Hc.
Qed.

Lemma skipNewlines_shorter (s : jsstring) :
  (length (skipNewlines s) <= length s)%nat.
Proof.
  induction s as [|c t IH]; [reflexivity|].
  simpl. destruct (c =? LF); simpl; lia.
Qed.

Lemma collapseNewlines_head (s : jsstring) :
  match s with
  | c :: _ => c <> LF
  | [] => True
  end ->
  match collapseNewlines s with
  | c :: _ => c <> LF
  | [] => True
  end.
Proof.
  destruct s as [|c t]; intros Hs.
  - now simp collapseNewlines.
  - rewrite collapseNewlines_other by assumption. exact Hs.
Qed.

Lemma collapseNewlines_clean (s : jsstring) :
  hasDoubleLF (collapseNewlines s) = false.
Proof.
  remember (length s) as n eqn:Hn. revert s Hn.
  induction n as [n IH] using lt_wf_ind. intros [|c t] Hn.
  - simp collapseNewlines. reflexivity.
  - destruct (N.eqb_spec c LF) as [->|Hc].
    + rewrite collapseNewlines_LF.
      pose proof (skipNewlines_shorter t) as Hlen.
      pose proof (collapseNewlines_head _ (skipNewlines_head t)) as Hhead.
      specialize (IH (length (skipNewlines t)) ltac:(simpl in Hn; lia)
                     (skipNewlines t) eq_refl).
      destruct (collapseNewlines (skipNewlines t)) as [|d u]; [reflexivity|].
      change (hasDoubleLF (LF :: d :: u))
        with ((LF =? LF) && (d =? LF) || hasDoubleLF (d :: u)).
      rewrite IH. destruct (N.eqb_spec d LF); [contradiction|reflexivity].
    + rewrite collapseNewlines_other by assumption.
      specialize (IH (length t) ltac:(simpl in Hn; lia) t eq_refl).
      destruct (collapseNewlines t) as [|d u]; [reflexivity|].
      change (hasDoubleLF (c :: d :: u))
        with ((c =? LF) && (d =? LF) || hasDoubleLF (d :: u)).
      rewrite IH. destruct (N.eqb_spec c LF); [contradiction|reflexivity].
Qed.

Lemma collapseNewlines_fixed (s : jsstring) :
  hasDoubleLF s = false -> collapseNewlines s = s.
Proof.
  induction s as [|c t IH]; intros Hs.
  - simp collapseNewlines. reflexivity.
  - destruct t as [|b u].
    + destruct (N.eqb_spec c LF) as [->|Hc].
      * rewrite collapseNewlines_LF. simpl. simp collapseNewlines. reflexivity.
      * rewrite collapseNewlines_other by assumption.
        simp collapseNewlines. reflexivity.
    + change (hasDoubleLF (c :: b :: u))
        with ((c =? LF) && (b =? LF) || hasDoubleLF (b :: u)) in Hs.
      apply orb_false_elim in Hs as [Hcb Hrest].
      destruct (N.eqb_spec c LF) as [->|Hc].
      * rewrite collapseNewlines_LF.
        destruct (N.eqb_spec b LF) as [->|Hb]; [discriminate|].
        simpl skipNewlines. destruct (N.eqb_spec b LF); [contradiction|].
        now rewrite IH.
      * rewrite collapseNewlines_other by assumption. now rewrite IH.
Qed.

(** X2.  The result of [collapseNewlines] never holds two line breaks side
    by side; [collapseNewlines] leaves a string unchanged exactly when
    the string holds no two line breaks side by side, and applying it
    twice is applying it once. *)
Theorem collapseNewlines_fixed_iff (s : jsstring) :
  hasDoubleLF (collapseNewlines s) = false
  /\ (collapseNewlines s = s <-> hasDoubleLF s = false)
  /\ collapseNewlines (collapseNewlines s) = collapseNewlines s.
Proof.
  split; [apply collapseNewlines_clean|]. split; [split|].
  - intros Heq. rewrite <- Heq. apply collapseNewlines_clean.
  - apply collapseNewlines_fixed.
  - apply collapseNewlines_fixed, collapseNewlines_clean.
Qed.

(** X3.  [collapseNewlines] removes line breaks and nothing else: the
    other code units of the string are kept, in order, and the result is
    never longer than the string. *)
Theorem collapseNewlines_keeps_text (s : jsstring) :
  List.filter (fun c => negb (c =? LF)) (collapseNewlines s)
  = List.filter (fun c => negb (c =? LF)) s
  /\ (length (collapseNewlines s) <= length s)%nat.
Proof.
  induction s as [s IH] using (induction_ltof1 _ (@length N)).
  unfold ltof in IH. destruct s as [|c t].
  - simp collapseNewlines. split; reflexivity.
  - destruct (N.eqb_spec c LF) as [->|Hc].
    + rewrite collapseNewlines_LF.
      pose proof (skipNewlines_shorter t) as Hlen.
      destruct (IH (skipNewlines t) ltac:(simpl; lia)) as [Hf Hl].
      split.
      * cbn [List.filter]. rewrite N.eqb_refl. cbn [negb].
        now rewrite Hf, skipNewlines_filter.
      * simpl. lia.
    + rewrite collapseNewlines_other by assumption.
      destruct (IH t ltac:(simpl; lia)) as [Hf Hl].
      split.
      * cbn [List.filter]. now rewrite Hf.
      * simpl. lia.
Qed.
End CollapseNewlines.

Section Normalize.

Lemma trimStart_app (l p : jsstring) :
  trimStart (l ++ p)
  = match trimStart l with
    | [] => trimStart p
    | _ :: _ => trimStart l ++ p
    end.
Proof.
  induction l as [|c t IH]; [reflexivity|].
  simpl. destruct (isWhiteSpace c); [exact IH|reflexivity].
Qed.

Lemma trimStart_blank (p : jsstring) :
  Forall (fun c => isWhiteSpace c = true) p -> trimStart p = [].
Proof.
  induction 1 as [|c t Hc _ IH]; [reflexivity|]. simpl. now rewrite Hc.
Qed.

Lemma trimEnd_app_blank (l p : jsstring) :
  Forall (fun c => isWhiteSpace c = true) p -> trimEnd (l ++ p) = trimEnd l.
Proof.
  intros Hp. unfold trimEnd. rewrite rev_app_distr, trimStart_app.
  rewrite trimStart_blank by now apply Forall_rev.
  reflexivity.
Qed.

Lemma trim_padded (l l' : jsstring) : padded l l' -> trim l' = trim l.
Proof.
  intros (pre & post & Hpre & Hpost & ->).
  assert (Hpre' : Forall (fun c => isWhiteSpace c = true) pre)
    by (eapply Forall_impl; [exact Hpre|]; now intros c [Hc _]).
  assert (Hpost' : Forall (fun c => isWhiteSpace c = true) post)
    by (eapply Forall_impl; [exact Hpost|]; now intros c [Hc _]).
  unfold trim. rewrite trimStart_app, (trimStart_blank pre) by assumption.
  rewrite trimStart_app. destruct (trimStart l) as [|c t] eqn:Hl.
  - now rewrite (trimStart_blank post).
  - now apply trimEnd_app_blank.
Qed.

Lemma padded_free (l l' : jsstring) :
  padded l l' -> ~ In LF l -> ~ In LF l'.
Proof.
  intros (pre & post & Hpre & Hpost & ->) Hl Hin.
  rewrite !in_app_iff in Hin. rewrite Forall_forall in Hpre, Hpost.
  destruct Hin as [Hin|[Hin|Hin]]; [|contradiction|].
  - apply list_elem_of_In, Hpre in Hin. now destruct Hin.
  - apply list_elem_of_In, Hpost in Hin. now destruct Hin.
Qed.

(** X4.  The normalised text holds no two line breaks side by side, and
    each of its lines is trimmed. *)
Theorem normalize_shape (s : jsstring) :
  hasDoubleLF (normalize s) = false
  /\ Forall (fun l => trim l = l) (split LF (normalize s)).
Proof.
  split; [apply collapseNewlines_clean|].
  rewrite normalize_lines, split_join.
  - apply squeezeLines_Forall, Forall_map, Forall_forall.
    intros l _. apply trim_idem.
  - apply squeezeLines_nonempty. intros Hnil.
    apply map_eq_nil in Hnil. now apply split_nonempty in Hnil.
  - apply squeezeLines_Forall, trimmed_lines_free.
Qed.

(** X5.  The comparison is insensitive to whitespace around lines: putting
    whitespace other than line breaks before and after the lines of a text
    does not change the normalised text. *)
Theorem normalize_padded (lines lines' : list jsstring) :
  lines <> [] ->
  Forall (fun l => ~ In LF l) lines ->
  Forall2 padded lines lines' ->
  normalize (join [LF] lines') = normalize (join [LF] lines).
Proof.
  intros Hne Hfree Hpad.
  assert (Hne' : lines' <> []).
  { destruct Hpad; [congruence|discriminate]. }
  assert (Hfree' : Forall (fun l => ~ In LF l) lines').
  { clear Hne Hne'. induction Hpad as [|l l' ls ls' Hl _ IH]; [constructor|].
    inversion Hfree; subst. constructor; [now apply (padded_free l)|now apply IH]. }
  rewrite !normalize_lines, !split_join by assumption.
  f_equal. f_equal. clear Hne Hne' Hfree Hfree'.
  induction Hpad as [|l l' ls ls' Hl _ IH]; [reflexivity|].
  simpl. now rewrite (trim_padded l l'), IH.
Qed.

Lemma dropInnerBlank_blank_cons (rest : list jsstring) :
  rest <> [] -> dropInnerBlank ([] :: rest) = dropInnerBlank rest.
Proof. destruct rest; [congruence|reflexivity]. Qed.

Lemma dropInnerBlank_text_cons (c : N) (l : jsstring) (rest : list jsstring) :
  rest <> [] ->
  dropInnerBlank ((c :: l) :: rest) = (c :: l) :: dropInnerBlank rest.
Proof. destruct rest; [congruence|reflexivity]. Qed.

Lemma snoc_nonempty {A : Type} (l : list A) (x : A) : l ++ [x] <> [].
Proof. destruct l; discriminate. Qed.

Lemma dropInnerBlank_blanks (blanks : list jsstring) (last : jsstring) :
  Forall (fun l => l = []) blanks -> dropInnerBlank (blanks ++ [last]) = [last].
Proof.
  induction 1 as [|l rest -> _ IH]; [reflexivity|].
  change (([] :: rest) ++ [last]) with ([] :: (rest ++ [last])).
  rewrite dropInnerBlank_blank_cons by apply snoc_nonempty. exact IH.
Qed.

(** X6.  Any number of blank lines between two lines, none included, is
    normalised to a single line break: the two lines, trimmed, end up on
    consecutive lines. *)
Theorem normalize_blank_lines (a b : jsstring) (blanks : list jsstring) :
  ~ In LF a -> ~ In LF b ->
  Forall (fun l => ~ In LF l /\ isBlank l) blanks ->
  normalize (join [LF] (a :: blanks ++ [b])) = trim a ++ LF :: trim b.
Proof.
  intros Ha Hb Hblanks.
  rewrite normalize_lines, split_join; [|discriminate|].
  - simpl map. simpl squeezeLines. rewrite map_app. simpl map.
    rewrite dropInnerBlank_blanks; [reflexivity|].
    apply Forall_map. eapply Forall_impl; [exact Hblanks|].
    now intros l [_ Hl].
  - constructor; [assumption|]. apply Forall_app. split.
    + eapply Forall_impl; [exact Hblanks|]. now intros l [Hl _].
    + now constructor.
Qed.

Lemma split_snoc_LF (s : jsstring) : split LF (s ++ [LF]) = split LF s ++ [[]].
Proof.
  induction s as [|c t IH]; [reflexivity|].
  simpl. destruct (c =? LF).
  - now rewrite IH.
  - rewrite IH. pose proof (split_nonempty LF t) as Hne.
    destruct (split LF t); [congruence|reflexivity].
Qed.

Lemma join_snoc (ls : list jsstring) (x : jsstring) :
  ls <> [] -> join [LF] (ls ++ [x]) = join [LF] ls ++ LF :: x.
Proof.
  induction ls as [|l rest IH]; [congruence|]. intros _.
  destruct rest as [|r rs]; [reflexivity|].
  change (l ++ [LF] ++ join [LF] ((r :: rs) ++ [x])
          = (l ++ [LF] ++ join [LF] (r :: rs)) ++ LF :: x).
  rewrite IH by discriminate. now rewrite <- !app_assoc.
Qed.

Lemma dropInnerBlank_snoc (rest : list jsstring) (x : jsstring) :
  exists kept, dropInnerBlank (rest ++ [x]) = kept ++ [x].
Proof.
  induction rest as [|l rest [kept IH]]; [now exists []|].
  change ((l :: rest) ++ [x]) with (l :: (rest ++ [x])).
  destruct l as [|c l].
  - exists kept. rewrite dropInnerBlank_blank_cons by apply snoc_nonempty.
    exact IH.
  - exists ((c :: l) :: kept).
    rewrite dropInnerBlank_text_cons by apply snoc_nonempty.
    now rewrite IH.
Qed.

(** X7.  The normalisation does not strip the text as a whole: a text that
    begins with a line break still begins with one, and a text that ends
    with a line break still ends with one. *)
Theorem normalize_keeps_outer_breaks (s : jsstring) :
  (exists t, normalize (LF :: s) = LF :: t)
  /\ (exists t, normalize (s ++ [LF]) = t ++ [LF]).
Proof.
  split.
  - rewrite normalize_lines.
    change (split LF (LF :: s)) with ([] :: split LF s).
    simpl map. simpl squeezeLines.
    rewrite join_cons.
    + eexists. reflexivity.
    + apply dropInnerBlank_nonempty. intros Hnil.
      apply map_eq_nil in Hnil. now apply split_nonempty in Hnil.
  - rewrite normalize_lines, split_snoc_LF, map_app. simpl map.
    change (trim []) with (@nil N).
    pose proof (split_nonempty LF s) as Hne.
    destruct (split LF s) as [|l ls]; [congruence|].
    simpl map. simpl squeezeLines.
    destruct (dropInnerBlank_snoc (map trim ls) []) as [kept ->].
    change (trim l :: kept ++ [[]]) with ((trim l :: kept) ++ [[]]).
    rewrite join_snoc by discriminate.
    eexists. reflexivity.
Qed.
End Normalize.

(* ===================================================================== *)
(** * Further properties of the quality metric *)
(* ===================================================================== *)

Section Quotients.
Local Open Scope Z_scope.

(** A finite number divided by itself is one. *)
Lemma jsdiv_self (m : positive) (e : Z) :
  jsdiv (S754_finite false m e) (S754_finite false m e) = ofZ 1.
Proof.
  assert (Hcore : SFdiv_core_binary prec emax (Zpos m) e (Zpos m) e
                  = (9007199254740992, -53, loc_Exact)).
  { unfold SFdiv_core_binary. cbv zeta. rewrite !Z.sub_diag.
    change (fexp prec emax 0) with (-53).
    change (Z.min (-53) 0) with (-53). change (0 - -53) with 53.
    cbv iota. rewrite Z.shiftl_mul_pow2 by lia.
    change (2 ^ 53) with 9007199254740992.
    destruct (Z.div_eucl (Zpos m * 9007199254740992) (Zpos m)) as [q r] eqn:Hqr.
    assert (Hq : q = Zpos m * 9007199254740992 / Zpos m)
      by (unfold Z.div; now rewrite Hqr).
    assert (Hr : r = (Zpos m * 9007199254740992) mod Zpos m)
      by (unfold Z.modulo; now rewrite Hqr).
    rewrite (Z.mul_comm (Zpos m)), Z.div_mul in Hq by lia.
    rewrite (Z.mul_comm (Zpos m)), Z.mod_mul in Hr by lia.
    subst q r. f_equal.
    unfold new_location. destruct (Z.even (Zpos m)); reflexivity. }
  unfold jsdiv, SFdiv. rewrite Hcore. reflexivity.
Qed.

Lemma jsdiv_by_zero (x : number) : Positive x -> jsdiv x zero = Infinity.
Proof. destruct x as [[]|[]| |[] m e]; simpl; tauto. Qed.

Lemma levenshtein_nil_r (s : jsstring) : levenshtein s [] = length s.
Proof. destruct s; reflexivity. Qed.
End Quotients.

Section MetricEdges.
Context `{Substrate}.

(** X8.  The running totals are never [NaN] and never negative, whatever
    was compared, and [compare] keeps the pipeline the instance was
    constructed with. *)
Theorem totals_invariant (c : option (document -> list fnode))
    (st0 : DiffStats.t) (pairs : list (document * document)) :
  DiffStats.constructor c = Normal st0 ->
  jsle zero (DiffStats.lengthOfExpectedTexts (compareAll st0 pairs)) = true
  /\ jsle zero (DiffStats.lengthOfDiffs (compareAll st0 pairs)) = true
  /\ DiffStats.contentFnodes (compareAll st0 pairs) = DiffStats.contentFnodes st0.
Proof.
  intros Hc. destruct (constructor_fresh c st0 Hc) as [Hl0 Hd0].
  destruct (compareAll_totals pairs st0) as [Hd Hl].
  rewrite Hd, Hl, Hl0, Hd0. repeat split.
  - apply NonNeg_zero_le, Total_NonNeg, fold_jsadd_Total;
      [apply expectedLength_Total|now left].
  - apply NonNeg_zero_le, Total_NonNeg, fold_jsadd_Total;
      [apply editDistance_Total|now left].
  - apply compareAll_contentFnodes.
Qed.

Lemma gotText_nothing (cf : document -> list fnode) (pair : document * document) :
  cf (snd pair) = [] -> gotText cf pair = [].
Proof.
  intros Hcf. unfold gotText. rewrite Hcf. simpl.
  unfold normalize. change (trimLines []) with (@nil N).
  now simp collapseNewlines.
Qed.

(** X9.  When the pipeline extracts nothing from any source document, the
    whole of each expected text counts as difference and the score is
    exactly 100, provided some expected text is not empty and the total
    has not overflowed. *)
Theorem nothing_extracted_scores_100 (c : option (document -> list fnode))
    (st0 : DiffStats.t) (pairs : list (document * document)) :
  DiffStats.constructor c = Normal st0 ->
  Forall (fun pair => DiffStats.contentFnodes st0 (snd pair) = []) pairs ->
  Exists (fun pair => expectedText pair <> []) pairs ->
  DiffStats.lengthOfExpectedTexts (compareAll st0 pairs) <> Infinity ->
  DiffStats.lengthOfDiffs (compareAll st0 pairs)
  = DiffStats.lengthOfExpectedTexts (compareAll st0 pairs)
  /\ DiffStats.score (compareAll st0 pairs) = ofZ 100.
Proof.
  intros Hc Hnone Hsome Hfin.
  destruct (constructor_fresh c st0 Hc) as [Hl0 Hd0].
  destruct (compareAll_totals pairs st0) as [Hd Hl].
  assert (Hsame : map (editDistance (DiffStats.contentFnodes st0)) pairs
                  = map expectedLength pairs).
  { clear - Hnone. induction Hnone as [|pair rest Hpair _ IH]; [reflexivity|].
    simpl. rewrite IH. f_equal.
    unfold editDistance, expectedLength, leven, strLength.
    now rewrite gotText_nothing, levenshtein_nil_r. }
  rewrite Hsame, Hd0 in Hd. rewrite Hl0 in Hl.
  assert (Heq : DiffStats.lengthOfDiffs (compareAll st0 pairs)
                = DiffStats.lengthOfExpectedTexts (compareAll st0 pairs))
    by now rewrite Hd, Hl.
  split; [exact Heq|].
  assert (Hpos : Positive (DiffStats.lengthOfExpectedTexts (compareAll st0 pairs))).
  { rewrite Hl. apply fold_jsadd_Positive_Exists;
      [apply expectedLength_Total| |now left].
    clear - Hsome. induction Hsome as [pair rest Hpair|pair rest _ IH];
      [left|right; exact IH].
    apply ofNat_Positive. intros Hlen. apply Hpair.
    now apply length_zero_iff_nil. }
  unfold DiffStats.score. rewrite Heq.
  destruct (DiffStats.lengthOfExpectedTexts (compareAll st0 pairs))
    as [[]|[]| |[] m e]; simpl in Hpos; try contradiction.
  rewrite jsdiv_self. reflexivity.
Qed.

(** X10.  When every expected text normalises to the empty string the
    score divides by zero: it is [Infinity] if something was extracted
    from some source document, and [NaN] if nothing was. *)
Theorem no_expected_text (c : option (document -> list fnode))
    (st0 : DiffStats.t) (pairs : list (document * document)) :
  DiffStats.constructor c = Normal st0 ->
  Forall (fun pair => expectedText pair = []) pairs ->
  (Exists (fun pair => gotText (DiffStats.contentFnodes st0) pair <> []) pairs ->
   DiffStats.score (compareAll st0 pairs) = Infinity)
  /\ (Forall (fun pair => gotText (DiffStats.contentFnodes st0) pair = []) pairs ->
      DiffStats.score (compareAll st0 pairs) = NaN).
Proof.
  intros Hc Hempty.
  destruct (constructor_fresh c st0 Hc) as [Hl0 Hd0].
  destruct (compareAll_totals pairs st0) as [Hd Hl].
  rewrite Hd0 in Hd. rewrite Hl0 in Hl.
  assert (Hz : DiffStats.lengthOfExpectedTexts (compareAll st0 pairs) = zero).
  { rewrite Hl. apply fold_jsadd_zero, Forall_map.
    eapply Forall_impl; [exact Hempty|].
    intros pair Hpair. unfold expectedLength. now rewrite Hpair. }
  unfold DiffStats.score. rewrite Hz. split.
  - intros Hsome.
    assert (Hpos : Positive (DiffStats.lengthOfDiffs (compareAll st0 pairs))).
    { rewrite Hd. apply fold_jsadd_Positive_Exists;
        [apply editDistance_Total| |now left].
      clear - Hsome Hempty.
      induction Hsome as [pair rest Hpair|pair rest _ IH];
        inversion Hempty as [|? ? Hnil Hrest]; subst;
        [left|right; now apply IH].
      unfold editDistance, leven. rewrite Hnil.
      apply ofNat_Positive. simpl. intros Hlen. apply Hpair.
      now apply length_zero_iff_nil. }
    rewrite jsdiv_by_zero by assumption. reflexivity.
  - intros Hnone.
    assert (Hdz : DiffStats.lengthOfDiffs (compareAll st0 pairs) = zero).
    { rewrite Hd. apply fold_jsadd_zero, Forall_map.
      clear - Hempty Hnone.
      induction Hempty as [|pair rest Hpair _ IH]; [constructor|].
      inversion Hnone as [|? ? Hgot Hrest]; subst.
      constructor; [|now apply IH].
      unfold editDistance, leven. now rewrite Hpair, Hgot. }
    rewrite Hdz. reflexivity.
Qed.
End MetricEdges.

(* ===================================================================== *)
(** * Further properties of deviationScore and of the corpus *)
(* ===================================================================== *)

Section Arguments.
Context `{Substrate}.

Lemma deviationScore_parameters (docPairs : list (document * document))
    (args args' : list value) :
  (forall i d, defaultCoefficients !! i = Some d ->
               parameter args' i d = parameter args i d) ->
  deviationScore docPairs (Array args') = deviationScore docPairs (Array args).
Proof.
  intros Hpar. unfold deviationScore, spread. cbn [mbind completion_bind].
  now rewrite (tunedContentFnodes_parameters args args').
Qed.

(** X11.  Of a coefficient array only the first seven entries count, and an
    entry that is [undefined] counts as the default of its position. *)
Theorem deviationScore_first_seven (docPairs : list (document * document))
    (args : list value) :
  deviationScore docPairs (Array args)
  = deviationScore docPairs (Array (take 7 args))
  /\ forall i d, defaultCoefficients !! i = Some d ->
       deviationScore docPairs (Array (<[i := VUndefined]> args))
       = deviationScore docPairs (Array (<[i := d]> args)).
Proof.
  split.
  - symmetry. apply deviationScore_parameters. intros i d Hi.
    apply lookup_lt_Some in Hi. change (length defaultCoefficients) with 7%nat in Hi.
    unfold parameter. now rewrite lookup_take_lt.
  - intros i d Hi. apply deviationScore_parameters. intros j d' Hj.
    unfold parameter. destruct (decide (i = j)) as [->|Hne].
    + assert (d' = d) by congruence. subst d'.
      pose proof (defaultCoefficients_defined j d Hj) as Hd.
      destruct (decide (j < length args)%nat) as [Hlt|Hge].
      * rewrite !list_lookup_insert_eq by assumption. destruct d; congruence.
      * rewrite !list_insert_ge by lia. reflexivity.
    + now rewrite !list_lookup_insert_ne.
Qed.

(** X12.  A coefficient argument that is neither left out nor an array is
    not iterable: [deviationScore] throws a [TypeError], whatever the
    document pairs, before any document is compared. *)
Theorem deviationScore_not_iterable (docPairs : list (document * document))
    (v : value) :
  v <> VUndefined -> deviationScore docPairs (Prim v) = Throw TypeError.
Proof. intros Hv. destruct v; [congruence|reflexivity..]. Qed.
End Arguments.

Section CorpusProperties.
Context `{Fixtures}.
Local Open Scope string_scope.

(** X13.  Comparing the folders of a list one by one with [compareFilesIn]
    gives what loading all their pairs with [expectedAndSourceDocs] and
    comparing those in order gives; either fails when a file cannot be
    read. *)
Theorem compareFolders_pairs (folders : list String.string) (st : DiffStats.t) :
  compareFolders st folders
  = (pairs ← mapM expectedAndSourceDocs folders; Some (compareAll st pairs)).
Proof.
  revert st. induction folders as [|folder rest IH]; intros st; [reflexivity|].
  cbn [compareFolders mapM]. unfold compareFilesIn.
  destruct (expectedAndSourceDocs folder) as [pair|]; [|reflexivity].
  cbn. rewrite IH. destruct (mapM expectedAndSourceDocs rest); reflexivity.
Qed.

Lemma expectedAndSourceDocs_Some (folder : String.string) :
  is_Some (expectedAndSourceDocs folder)
  <-> is_Some (domFromFile folder "expected.html")
      /\ is_Some (domFromFile folder "source.html").
Proof.
  unfold expectedAndSourceDocs.
  destruct (domFromFile folder "expected.html") as [e|],
           (domFromFile folder "source.html") as [s|]; cbn.
  - split; eauto.
  - split; [intros Hnone|intros [_ Hnone]]; now apply is_Some_None in Hnone.
  - split; [intros Hnone|intros [Hnone _]]; now apply is_Some_None in Hnone.
  - split; [intros Hnone|intros [Hnone _]]; now apply is_Some_None in Hnone.
Qed.

(** X14.  [readabilityDocPairs] returns pairs exactly when both files of
    each of the nine folders can be read; it then returns nine pairs, one
    per folder in the order of the list, each the expected document first
    and the source document second. *)
Theorem readabilityDocPairs_loaded :
  (is_Some readabilityDocPairs
   <-> Forall (fun folder =>
                 is_Some (domFromFile folder "expected.html")
                 /\ is_Some (domFromFile folder "source.html"))
              readabilityFolders)
  /\ forall pairs, readabilityDocPairs = Some pairs ->
       length pairs = 9%nat
       /\ Forall2 (fun folder pair =>
                     domFromFile folder "expected.html" = Some (fst pair)
                     /\ domFromFile folder "source.html" = Some (snd pair))
                  readabilityFolders pairs.
Proof.
  unfold readabilityDocPairs. split.
  - rewrite mapM_is_Some. apply Forall_iff. intros folder.
    apply expectedAndSourceDocs_Some.
  - intros pairs Hpairs. split.
    + apply length_mapM in Hpairs. now rewrite <- Hpairs.
    + apply mapM_Some_1 in Hpairs.
      eapply Forall2_impl; [exact Hpairs|].
      intros folder pair. unfold expectedAndSourceDocs.
      destruct (domFromFile folder "expected.html") as [e|]; [|discriminate].
      destruct (domFromFile folder "source.html") as [s|]; [|discriminate].
      cbn. now intros [= <-].
Qed.
End CorpusProperties.

(* ===================================================================== *)
(** * Further properties of the tuner *)
(* ===================================================================== *)

Section TunerRuns.

Lemma addAssign_keeps (elems : list value) (k d : number) :
  (length elems <= length (addAssign elems k d))%nat
  /\ exists i, forall j, j <> i -> (j < length elems)%nat ->
                         addAssign elems k d !! j = elems !! j.
Proof.
  unfold addAssign. destruct (arrayIndex k) as [i|].
  - destruct (Nat.ltb_spec i (length elems)) as [Hlt|Hge].
    + rewrite length_insert. split; [lia|].
      exists i. intros j Hj _. now apply list_lookup_insert_ne.
    + rewrite length_app. split; [lia|].
      exists i. intros j _ Hj. now apply lookup_app_l.
  - split; [lia|]. now exists 0%nat.
Qed.

(** X15.  Whatever the vector and whatever the two draws,
    [randomTransition] returns a new array and writes to nothing else:
    every array already in the store is kept as it is, the input vector
    among them, and the new array is the input vector with at most one of
    its positions changed, never shorter. *)
Theorem randomTransition_allocates (h : store) (solution : loc)
    (s : list value) (r1 r2 : number) :
  h !! solution = Some s ->
  exists (ret : loc) (s' : list value),
    ContentFnodesTuner.randomTransition r1 r2 h solution
      = Some (<[ret := s']> h, ret)
    /\ h !! ret = None
    /\ (forall l a, h !! l = Some a -> <[ret := s']> h !! l = Some a)
    /\ (length s <= length s')%nat
    /\ exists i, forall j, j <> i -> (j < length s)%nat -> s' !! j = s !! j.
Proof.
  intros Hs.
  destruct (slice_fresh h solution s Hs) as [Hslice Hfresh].
  remember (fresh (dom h)) as ret eqn:Hret. clear Hret.
  assert (Hne : ret <> solution) by congruence.
  eexists ret, _. split.
  { unfold ContentFnodesTuner.randomTransition. rewrite Hslice. simpl.
    rewrite (lookup_insert_ne _ ret solution) by assumption.
    rewrite Hs. simpl. rewrite lookup_insert_eq. simpl.
    rewrite insert_insert_eq. reflexivity. }
  split; [assumption|]. split.
  { intros l a Hl. rewrite lookup_insert_ne; [assumption|congruence]. }
  apply addAssign_keeps.
Qed.

(** X16.  On an empty vector the index is 0 whatever the draw, the entry
    read there is [undefined], and the result is the one-element vector
    [[NaN]]. *)
Theorem randomTransition_empty (h : store) (solution : loc) (r1 r2 : number) :
  h !! solution = Some [] -> isRandom r1 ->
  exists ret,
    ContentFnodesTuner.randomTransition r1 r2 h solution
      = Some (<[ret := [VNumber NaN]]> h, ret)
    /\ h !! ret = None.
Proof.
  intros Hs Hr1.
  destruct (slice_fresh h solution [] Hs) as [Hslice Hfresh].
  remember (fresh (dom h)) as ret eqn:Hret. clear Hret.
  assert (Hne : ret <> solution) by congruence.
  exists ret. split; [|assumption].
  unfold ContentFnodesTuner.randomTransition. rewrite Hslice. simpl.
  rewrite (lookup_insert_ne _ ret solution) by assumption.
  rewrite Hs. simpl. rewrite lookup_insert_eq. simpl.
  rewrite insert_insert_eq. do 2 f_equal. f_equal.
  destruct (isRandom_shape r1 Hr1) as [[sg ->]|(m & e & -> & _)];
    [destruct sg|]; reflexivity.
Qed.



End TunerRuns.

(* ===================================================================== *)
(** * The further properties on examples *)
(* ===================================================================== *)

Section MoreExamples.
#[local] Existing Instance blocks.
#[local] Existing Instance disk.
Local Open Scope string_scope.

(** X5, on an example: [" a "] and ["b" TAB] against ["a"] and ["b"]. *)
Lemma normalize_padded_witness :
  [str "a"; str "b"] <> []
  /\ Forall (fun l => ~ In LF l) [str "a"; str "b"]
  /\ Forall2 padded [str "a"; str "b"] [str " a "; [98; 9]]
  /\ normalize (join [LF] [str " a "; [98; 9]])
     = normalize (join [LF] [str "a"; str "b"]).
Proof.
  assert (Hne : [str "a"; str "b"] <> []) by discriminate.
  assert (Hfree : Forall (fun l => ~ In LF l) [str "a"; str "b"]).
  { repeat constructor; intros [Hc|[]]; discriminate Hc. }
  assert (Hpad : Forall2 padded [str "a"; str "b"] [str " a "; [98; 9]]).
  { constructor; [|constructor; [|constructor]].
    - exists [32], [32]. repeat split; repeat constructor; discriminate.
    - exists [], [9]. repeat split; repeat constructor; discriminate. }
  split; [exact Hne|]. split; [exact Hfree|]. split; [exact Hpad|].
  exact (normalize_padded _ _ Hne Hfree Hpad).
Defined.

(** X6, on an example: two blank lines between [" a"] and ["b "]. *)
Lemma normalize_blank_lines_witness :
  ~ In LF (str " a") /\ ~ In LF (str "b ")
  /\ Forall (fun l => ~ In LF l /\ isBlank l) [[32]; []]
  /\ normalize (join [LF] (str " a" :: [[32]; []] ++ [str "b "]))
     = trim (str " a") ++ LF :: trim (str "b ").
Proof.
  assert (Ha : ~ In LF (str " a")) by (intros [Hc|[Hc|[]]]; discriminate Hc).
  assert (Hb : ~ In LF (str "b ")) by (intros [Hc|[Hc|[]]]; discriminate Hc).
  assert (Hblanks : Forall (fun l => ~ In LF l /\ isBlank l) [[32]; []]).
  { repeat constructor; try reflexivity.
    - intros [Hc|[]]. discriminate Hc.
    - intros []. }
  split; [exact Ha|]. split; [exact Hb|]. split; [exact Hblanks|].
  exact (normalize_blank_lines _ _ _ Ha Hb Hblanks).
Defined.

(** X8, on an example. *)
Lemma totals_invariant_witness :
  DiffStats.constructor None = Normal freshStats
  /\ jsle zero (DiffStats.lengthOfExpectedTexts (compareAll freshStats [helloPair])) = true
  /\ jsle zero (DiffStats.lengthOfDiffs (compareAll freshStats [helloPair])) = true
  /\ DiffStats.contentFnodes (compareAll freshStats [helloPair])
     = DiffStats.contentFnodes freshStats.
Proof.
  split; [reflexivity|].
  exact (totals_invariant None freshStats [helloPair] eq_refl).
Defined.

(** X9, on an example: nothing is extracted from an empty page. *)
Lemma nothing_extracted_scores_100_witness :
  DiffStats.constructor None = Normal freshStats
  /\ Forall (fun pair => DiffStats.contentFnodes freshStats (snd pair) = []) [emptyPair]
  /\ Exists (fun pair => expectedText pair <> []) [emptyPair]
  /\ DiffStats.lengthOfExpectedTexts (compareAll freshStats [emptyPair]) <> Infinity
  /\ DiffStats.score (compareAll freshStats [emptyPair]) = ofZ 100.
Proof.
  assert (Hnone : Forall (fun pair => DiffStats.contentFnodes freshStats (snd pair) = [])
                         [emptyPair]) by (repeat constructor).
  assert (Hsome : Exists (fun pair => expectedText pair <> []) [emptyPair])
    by (left; vm_compute; discriminate).
  assert (Hfin : DiffStats.lengthOfExpectedTexts (compareAll freshStats [emptyPair])
                 <> Infinity) by (vm_compute; discriminate).
  split; [reflexivity|]. split; [exact Hnone|]. split; [exact Hsome|].
  split; [exact Hfin|].
  exact (proj2 (nothing_extracted_scores_100 None freshStats [emptyPair]
                  eq_refl Hnone Hsome Hfin)).
Defined.

(** X10, on an example: no expected text, something extracted. *)
Lemma no_expected_text_witness :
  DiffStats.constructor None = Normal freshStats
  /\ Forall (fun pair => expectedText pair = []) [surplusPair]
  /\ Exists (fun pair => gotText (DiffStats.contentFnodes freshStats) pair <> [])
            [surplusPair]
  /\ DiffStats.score (compareAll freshStats [surplusPair]) = Infinity.
Proof.
  assert (Hempty : Forall (fun pair => expectedText pair = []) [surplusPair])
    by (repeat constructor).
  assert (Hsome : Exists (fun pair => gotText (DiffStats.contentFnodes freshStats) pair <> [])
                         [surplusPair]) by (left; vm_compute; discriminate).
  split; [reflexivity|]. split; [exact Hempty|]. split; [exact Hsome|].
  exact (proj1 (no_expected_text None freshStats [surplusPair] eq_refl Hempty) Hsome).
Defined.

(** X11, on an example: an [undefined] length coefficient is the default
    2. *)
Lemma deviationScore_first_seven_witness :
  defaultCoefficients !! 2%nat = Some (VNumber (ofZ 2))
  /\ deviationScore [helloPair] (Array (<[2%nat := VUndefined]> (replicate 9 VNull)))
     = deviationScore [helloPair] (Array (<[2%nat := VNumber (ofZ 2)]> (replicate 9 VNull))).
Proof.
  split; [reflexivity|].
  exact (proj2 (deviationScore_first_seven [helloPair] (replicate 9 VNull))
               2%nat (VNumber (ofZ 2)) eq_refl).
Defined.

(** X12, on an example: [deviationScore(pairs, null)]. *)
Lemma deviationScore_not_iterable_witness :
  VNull <> VUndefined
  /\ deviationScore [helloPair] (Prim VNull) = Throw TypeError.
Proof.
  assert (Hv : VNull <> VUndefined) by discriminate.
  split; [exact Hv|]. exact (deviationScore_not_iterable [helloPair] VNull Hv).
Defined.

(** X14, on an example: a disk that holds every folder of the list. *)
Lemma readabilityDocPairs_loaded_witness :
  Forall (fun folder =>
            is_Some (domFromFile folder "expected.html")
            /\ is_Some (domFromFile folder "source.html"))
         readabilityFolders
  /\ is_Some readabilityDocPairs
  /\ forall pairs, readabilityDocPairs = Some pairs -> length pairs = 9%nat.
Proof.
  assert (Hall : Forall (fun folder =>
                           is_Some (domFromFile folder "expected.html")
                           /\ is_Some (domFromFile folder "source.html"))
                        readabilityFolders)
    by (repeat constructor; eexists; reflexivity).
  split; [exact Hall|]. split.
  - exact (proj2 (proj1 readabilityDocPairs_loaded) Hall).
  - intros pairs Hpairs.
    exact (proj1 (proj2 readabilityDocPairs_loaded pairs Hpairs)).
Defined.

(** X15, on an example. *)
Lemma randomTransition_allocates_witness :
  ({[ 1%positive := defaultCoefficients ]} : store) !! 1%positive
    = Some defaultCoefficients
  /\ exists (ret : loc) (s' : list value),
       ContentFnodesTuner.randomTransition (dyadic 1 (-1)) zero
         {[ 1%positive := defaultCoefficients ]} 1%positive
       = Some (<[ret := s']> {[ 1%positive := defaultCoefficients ]}, ret)
       /\ (length defaultCoefficients <= length s')%nat.
Proof.
  assert (Hs : ({[ 1%positive := defaultCoefficients ]} : store) !! 1%positive
               = Some defaultCoefficients) by reflexivity.
  split; [exact Hs|].
  destruct (randomTransition_allocates _ _ _ (dyadic 1 (-1)) zero Hs)
    as (ret & s' & Hrun & _ & _ & Hlen & _).
  exists ret, s'. split; [exact Hrun|exact Hlen].
Defined.

(** X16, on an example. *)
Lemma randomTransition_empty_witness :
  ({[ 1%positive := [] ]} : store) !! 1%positive = Some []
  /\ isRandom (dyadic 1 (-1))
  /\ exists ret,
       ContentFnodesTuner.randomTransition (dyadic 1 (-1)) zero
         {[ 1%positive := [] ]} 1%positive
       = Some (<[ret := [VNumber NaN]]> {[ 1%positive := [] ]}, ret).
Proof.
  assert (Hs : ({[ 1%positive := [] ]} : store) !! 1%positive = Some [])
    by reflexivity.
  assert (Hr : isRandom (dyadic 1 (-1))) by (repeat split).
  split; [exact Hs|]. split; [exact Hr|].
  destruct (randomTransition_empty _ _ (dyadic 1 (-1)) zero Hs Hr)
    as (ret & Hrun & _).
  exists ret. exact Hrun.
Defined.

End MoreExamples.
